(** * go-blockchain: ledger core

    A shallow embedding of the four Go source files of the repository
    (core/types/transaction.go, wallet/wallet.go, wallet/wallets.go and
    chaindb/db.go) together with the properties of the ledger core that
    are established or refuted on it.

    Conventions of the embedding:
    - a Go [int] is a [Z] in the 64-bit signed range, arithmetic wraps;
    - a Go [[]byte] is a [list byte], a Go [string] is a [string];
      a nil slice and an empty slice are both [[]];
    - a Go function that can panic returns an [outcome];
    - a Go function with an [error] result returns its error as
      [option error] ([None] is Go's nil);
    - methods of a stateful object thread the state explicitly. *)

From Stdlib Require Import ZArith NArith List Lia DecimalString.
From Stdlib.Strings Require Import String Ascii Byte.
From stdpp Require Import base option list gmap strings.

Local Open Scope Z_scope.

(* ===================================================================== *)
(** * Part I: definitions                                                *)
(* ===================================================================== *)

(** ** The Go runtime, as far as the sources use it *)

(** Errors of the standard library and of the storage engine that the
    sources can observe. *)
Inductive error : Type :=
  | ErrLength                         (* encoding/hex: odd length *)
  | InvalidByteError (b : byte)       (* encoding/hex: not a hex digit *)
  | ErrKeyNotFound                    (* badger *)
  | ErrEmptyKey                       (* badger *)
  | ErrReadOnlyTxn                    (* badger *)
  | ErrEngine (msg : string)          (* badger: any other engine failure *)
  | ErrNotExist                       (* os: no such file *)
  | ErrIO (msg : string)              (* os / io: any other file failure *)
  | ErrDecode (msg : string).         (* encoding/gob, base58 *)

(** Run-time panics raised by the language itself. *)
Inductive runtime_error : Type :=
  | NilDereference
  | SliceBoundsOutOfRange.

(** What a panic carries. *)
Inductive panic : Type :=
  | LogPanic (msg : string)           (* log.Panic(msg) *)
  | ErrPanic (e : error)              (* a panic raised for an error value *)
  | RuntimePanic (r : runtime_error).

(** The result of running a Go function: it returns, or it panics and
    (nothing in these packages recovers) the process terminates. *)
Inductive outcome (A : Type) : Type :=
  | Returned (a : A)
  | Panicked (p : panic).
Arguments Returned {A} a.
Arguments Panicked {A} p.

Global Instance outcome_ret : MRet outcome := fun A a => Returned a.
Global Instance outcome_bind : MBind outcome := fun A B f m =>
  match m with
  | Returned a => f a
  | Panicked p => Panicked p
  end.

(** The function handed its result back to the caller. *)
Definition returns {A} (o : outcome A) : Prop := exists a, o = Returned a.

(** The call did not come back: the process is terminated by a panic. *)
Definition terminates_process {A} (o : outcome A) : Prop :=
  exists p, o = Panicked p.

(** Modelled from the spec: errutil.HandleErr is not among the sources.
    Sections 7 and 9 of the specification describe the observed policy as
    terminate-on-any-failure, "terminating the process on every internal
    read/decode failure"; so a non-nil error panics with that error and
    nil is ignored. *)
Definition HandleErr (err : option error) : outcome unit :=
  match err with
  | None => Returned tt
  | Some e => Panicked (ErrPanic e)
  end.

(** *** 64-bit signed integers *)

Definition int_min : Z := - 2 ^ 63.
Definition int_max : Z := 2 ^ 63 - 1.
Definition is_int (z : Z) : Prop := int_min <= z <= int_max.

(** Two's-complement wrap-around of a mathematical integer. *)
Definition int_wrap (z : Z) : Z := (z + 2 ^ 63) mod 2 ^ 64 - 2 ^ 63.
Definition int_add (a b : Z) : Z := int_wrap (a + b).
Definition int_sub (a b : Z) : Z := int_wrap (a - b).

(** *** Bytes and slices *)

Definition byte_of_N (n : N) : byte :=
  match Byte.of_N (n mod 256) with
  | Some b => b
  | None => x00
  end.

Global Instance byte_eq_dec : EqDecision byte := Byte.byte_eq_dec.
Global Instance byte_countable : Countable byte :=
  inj_countable Byte.to_N Byte.of_N Byte.of_to_N.

(** A Go array [[n]byte]: its length is part of its type. *)
Record array (n : nat) : Type := mk_array {
  elems :> list byte;
  elems_length : length elems = n
}.
Arguments mk_array {n} elems elems_length.
Arguments elems {n} a.
Arguments elems_length {n} a.

(** [s[lo:hi]]: panics unless [0 <= lo <= hi <= len(s)] (Go allows [hi]
    up to the capacity; no upper bound in the sources exceeds the
    length). *)
Definition slice (s : list byte) (lo hi : Z) : outcome (list byte) :=
  if (0 <=? lo) && (lo <=? hi) && (hi <=? Z.of_nat (length s))
  then Returned (take (Z.to_nat (hi - lo)) (drop (Z.to_nat lo) s))
  else Panicked (RuntimePanic SliceBoundsOutOfRange).

(** [s[lo:]] *)
Definition slice_from (s : list byte) (lo : Z) : outcome (list byte) :=
  slice s lo (Z.of_nat (length s)).

(** [bytes.Compare]: lexicographic comparison, -1, 0 or +1. *)
Fixpoint bytes_Compare (a b : list byte) : Z :=
  match a, b with
  | [], [] => 0
  | [], _ :: _ => -1
  | _ :: _, [] => 1
  | x :: a', y :: b' =>
      match N.compare (Byte.to_N x) (Byte.to_N y) with
      | Lt => -1
      | Gt => 1
      | Eq => bytes_Compare a' b'
      end
  end.

(** [fmt.Sprintf("%d", z)] *)
Definition fmt_d (z : Z) : string := NilZero.string_of_int (Z.to_int z).

(** ** encoding/hex *)

Module hex.

(** The value of a hexadecimal digit, [None] for any other byte. *)
Definition fromHexChar (c : byte) : option N :=
  let n := Byte.to_N c in
  if ((48 <=? n) && (n <=? 57))%N then Some (n - 48)%N
  else if ((97 <=? n) && (n <=? 102))%N then Some (n - 97 + 10)%N
  else if ((65 <=? n) && (n <=? 70))%N then Some (n - 65 + 10)%N
  else None.

(** [hex.Decode]: the bytes decoded before the first failure, and the
    failure if any.  An invalid digit is reported before a bad length. *)
Fixpoint Decode (src : list byte) : list byte * option error :=
  match src with
  | [] => ([], None)
  | [p] =>
      match fromHexChar p with
      | None => ([], Some (InvalidByteError p))
      | Some _ => ([], Some ErrLength)
      end
  | p :: q :: rest =>
      match fromHexChar p with
      | None => ([], Some (InvalidByteError p))
      | Some a =>
          match fromHexChar q with
          | None => ([], Some (InvalidByteError q))
          | Some b =>
              let '(out, err) := Decode rest in
              (byte_of_N (a * 16 + b) :: out, err)
          end
      end
  end.

Definition DecodeString (s : string) : list byte * option error :=
  Decode (list_byte_of_string s).

Definition hextable : list byte := list_byte_of_string "0123456789abcdef".

(** What [Decode] can report: an odd length or an invalid digit. *)
Definition error_of_Decode (e : error) : Prop :=
  e = ErrLength \/ exists b, e = InvalidByteError b.

(** [hex.EncodeToString]: two lower-case digits per byte. *)
Definition EncodeToString (src : list byte) : string :=
  string_of_list_byte
    (flat_map (fun v => let n := N.to_nat (Byte.to_N v) in
                        [nth (n / 16) hextable x00; nth (n mod 16) hextable x00])
              src).

End hex.

(** ** External collaborators of the sources *)

(** crypto/sha256: [Sum256] returns a [[32]byte]. *)
Class Sha256 := Sum256 : list byte -> array 32.

(** golang.org/x/crypto/ripemd160: writing [data] to a fresh hasher and
    calling [Sum(nil)] yields the 20-byte digest. *)
Class Ripemd160 := ripemd160_Sum : list byte -> array 20.

(** ** 32-bit words, shared by the two digest functions *)

Module word32.

Definition modulus : Z := 2 ^ 32.
Definition add (a b : Z) : Z := (a + b) mod modulus.
Definition sum (ws : list Z) : Z := fold_left add ws 0.
Definition not (x : Z) : Z := Z.lxor x (modulus - 1).
Definition rotl (n x : Z) : Z :=
  Z.lor (Z.shiftl x n mod modulus) (Z.shiftr x (32 - n)).
Definition rotr (n x : Z) : Z := rotl (32 - n) x.

Definition byte_to_Z (b : byte) : Z := Z.of_N (Byte.to_N b).
Definition byte_of_Z (z : Z) : byte := byte_of_N (Z.to_N (z mod 256)).

(** Big-endian and little-endian readings of a group of bytes. *)
Definition of_be (bs : list byte) : Z :=
  fold_left (fun acc b => acc * 256 + byte_to_Z b) bs 0.
Definition of_le (bs : list byte) : Z := of_be (rev bs).

(** The four bytes of a word, and the eight bytes of a length. *)
Definition to_be (w : Z) : list byte :=
  [byte_of_Z (Z.shiftr w 24); byte_of_Z (Z.shiftr w 16);
   byte_of_Z (Z.shiftr w 8); byte_of_Z w].
Definition to_le (w : Z) : list byte := rev (to_be w).
Definition len64_be (n : Z) : list byte :=
  to_be (Z.shiftr n 32) ++ to_be (n mod modulus).
Definition len64_le (n : Z) : list byte := rev (len64_be n).

(** [n] consecutive groups of [size] elements. *)
Fixpoint chunks {A} (n size : nat) (l : list A) : list (list A) :=
  match n with
  | O => []
  | S n' => take size l :: chunks n' size (drop size l)
  end.

(** Merkle-Damgard padding to a multiple of 64 bytes: a 1 bit, zeros, and
    the bit length as encoded by [len64]. *)
Definition pad (len64 : Z -> list byte) (msg : list byte) : list byte :=
  let zeros := ((64 - (length msg + 9) mod 64) mod 64)%nat in
  msg ++ [x80] ++ replicate zeros x00 ++ len64 (8 * Z.of_nat (length msg)).

(** The padded message as 64-byte blocks of sixteen words each. *)
Definition blocks (len64 : Z -> list byte) (word : list byte -> Z)
    (msg : list byte) : list (list Z) :=
  let padded := pad len64 msg in
  (fun block => word <$> chunks 16 4 block)
    <$> chunks (length padded / 64) 64 padded.

End word32.

(** ** crypto/sha256

    The function of FIPS 180-4, to run the model on concrete inputs; the
    properties of Part II are proved for every [Sha256]. *)

Module sha256.
Import word32.

Definition K : list Z :=
  [1116352408; 1899447441; 3049323471; 3921009573; 961987163; 1508970993;
   2453635748; 2870763221; 3624381080; 310598401; 607225278; 1426881987;
   1925078388; 2162078206; 2614888103; 3248222580; 3835390401; 4022224774;
   264347078; 604807628; 770255983; 1249150122; 1555081692; 1996064986;
   2554220882; 2821834349; 2952996808; 3210313671; 3336571891; 3584528711;
   113926993; 338241895; 666307205; 773529912; 1294757372; 1396182291;
   1695183700; 1986661051; 2177026350; 2456956037; 2730485921; 2820302411;
   3259730800; 3345764771; 3516065817; 3600352804; 4094571909; 275423344;
   430227734; 506948616; 659060556; 883997877; 958139571; 1322822218;
   1537002063; 1747873779; 1955562222; 2024104815; 2227730452; 2361852424;
   2428436474; 2756734187; 3204031479; 3329325298].

Definition H0 : list Z :=
  [1779033703; 3144134277; 1013904242; 2773480762;
   1359893119; 2600822924; 528734635; 1541459225].

Definition Ch (x y z : Z) : Z := Z.lxor (Z.land x y) (Z.land (not x) z).
Definition Maj (x y z : Z) : Z :=
  Z.lxor (Z.lxor (Z.land x y) (Z.land x z)) (Z.land y z).
Definition Sigma0 (x : Z) : Z :=
  Z.lxor (Z.lxor (rotr 2 x) (rotr 13 x)) (rotr 22 x).
Definition Sigma1 (x : Z) : Z :=
  Z.lxor (Z.lxor (rotr 6 x) (rotr 11 x)) (rotr 25 x).
Definition sigma0 (x : Z) : Z :=
  Z.lxor (Z.lxor (rotr 7 x) (rotr 18 x)) (Z.shiftr x 3).
Definition sigma1 (x : Z) : Z :=
  Z.lxor (Z.lxor (rotr 17 x) (rotr 19 x)) (Z.shiftr x 10).

(** One round on the eight working variables and the sixteen schedule
    words from the current one on. *)
Definition round (sw : list Z * list Z) (k : Z) : list Z * list Z :=
  let '(s, w) := sw in
  match s with
  | [a; b; c; d; e; f; g; h] =>
      let w0 := nth 0 w 0 in
      let T1 := sum [h; Sigma1 e; Ch e f g; k; w0] in
      let T2 := add (Sigma0 a) (Maj a b c) in
      let next := sum [sigma1 (nth 14 w 0); nth 9 w 0; sigma0 (nth 1 w 0); w0] in
      ([add T1 T2; a; b; c; add d T1; e; f; g], tl w ++ [next])
  | _ => sw
  end.

Definition compress (H : list Z) (block : list Z) : list Z :=
  zip_with add H (fold_left round K (H, block)).1.

Definition hash (msg : list byte) : list Z :=
  fold_left compress (blocks len64_be of_be msg) H0.

(** The digest: the first eight words of the final state, big-endian. *)
Definition digest (msg : list byte) : list byte :=
  take 32 (flat_map to_be (hash msg) ++ replicate 32 x00).

Lemma length_sha256_digest msg : length (digest msg) = 32%nat.
Proof.
  unfold digest. rewrite length_take, length_app, length_replicate. lia.
Qed.

Definition Sum256 : Sha256 := fun data => mk_array (digest data) (length_sha256_digest data).

End sha256.


(** ** golang.org/x/crypto/ripemd160

    The function of Dobbertin, Bosselaers and Preneel, to run the model on
    concrete inputs; the properties of Part II are proved for every
    [Ripemd160]. *)

Module ripemd160.
Import word32.

Definition H0 : list Z :=
  [1732584193; 4023233417; 2562383102; 271733878; 3285377520].

(** Per group of sixteen steps: the added constants of the two lines. *)
Definition K_left : list Z := [0; 1518500249; 1859775393; 2400959708; 2840853838].
Definition K_right : list Z := [1352829926; 1548603684; 1836072691; 2053994217; 0].

(** Per step: which message word is used, and the rotation amount. *)
Definition r_left : list nat :=
  seq 0 16 ++
  [7; 4; 13; 1; 10; 6; 15; 3; 12; 0; 9; 5; 2; 14; 11; 8;
   3; 10; 14; 4; 9; 15; 8; 1; 2; 7; 0; 6; 13; 11; 5; 12;
   1; 9; 11; 10; 0; 8; 12; 4; 13; 3; 7; 15; 14; 5; 6; 2;
   4; 0; 5; 9; 7; 12; 2; 10; 14; 1; 3; 8; 11; 6; 15; 13]%nat.
Definition r_right : list nat :=
  [5; 14; 7; 0; 9; 2; 11; 4; 13; 6; 15; 8; 1; 10; 3; 12;
   6; 11; 3; 7; 0; 13; 5; 10; 14; 15; 8; 12; 4; 9; 1; 2;
   15; 5; 1; 3; 7; 14; 6; 9; 11; 8; 12; 2; 10; 0; 4; 13;
   8; 6; 4; 1; 3; 11; 15; 0; 5; 12; 2; 13; 9; 7; 10; 14;
   12; 15; 10; 4; 1; 5; 8; 7; 6; 2; 13; 14; 0; 3; 9; 11]%nat.
Definition s_left : list Z :=
  [11; 14; 15; 12; 5; 8; 7; 9; 11; 13; 14; 15; 6; 7; 9; 8;
   7; 6; 8; 13; 11; 9; 7; 15; 7; 12; 15; 9; 11; 7; 13; 12;
   11; 13; 6; 7; 14; 9; 13; 15; 14; 8; 13; 6; 5; 12; 7; 5;
   11; 12; 14; 15; 14; 15; 9; 8; 9; 14; 5; 6; 8; 6; 5; 12;
   9; 15; 5; 11; 6; 8; 13; 12; 5; 12; 13; 14; 11; 8; 5; 6].
Definition s_right : list Z :=
  [8; 9; 9; 11; 13; 15; 15; 5; 7; 7; 8; 11; 14; 14; 12; 6;
   9; 13; 15; 7; 12; 8; 9; 11; 7; 7; 12; 7; 6; 15; 13; 11;
   9; 7; 15; 11; 8; 6; 6; 14; 12; 13; 5; 14; 13; 13; 7; 5;
   15; 5; 8; 11; 14; 14; 6; 14; 6; 9; 12; 9; 12; 5; 15; 8;
   8; 5; 12; 9; 12; 5; 14; 6; 8; 13; 6; 5; 15; 13; 11; 11].

(** The five boolean functions, by group. *)
Definition f (group : nat) (x y z : Z) : Z :=
  match group with
  | 0%nat => Z.lxor (Z.lxor x y) z
  | 1%nat => Z.lor (Z.land x y) (Z.land (not x) z)
  | 2%nat => Z.lxor (Z.lor x (not y)) z
  | 3%nat => Z.lor (Z.land x z) (Z.land y (not z))
  | _ => Z.lxor x (Z.lor y (not z))
  end.

(** One step of a line on its five working variables. *)
Definition step (fn : Z -> Z -> Z -> Z) (k x s : Z) (st : list Z) : list Z :=
  match st with
  | [a; b; c; d; e] =>
      [e; add (rotl s (sum [a; fn b c d; x; k])) e; b; rotl 10 c; d]
  | _ => st
  end.

(** The eighty steps of a line; [group j] selects the boolean function
    of step [j]. *)
Definition line (group : nat -> nat) (K : list Z) (r : list nat) (s : list Z)
    (X : list Z) (st : list Z) : list Z :=
  fold_left
    (fun st j =>
       step (f (group j)) (nth (j / 16) K 0) (nth (nth j r 0%nat) X 0)
            (nth j s 0) st)
    (seq 0 80) st.

Definition compress (H : list Z) (X : list Z) : list Z :=
  let L := line (fun j => (j / 16)%nat) K_left r_left s_left X H in
  let R := line (fun j => (4 - j / 16)%nat) K_right r_right s_right X H in
  match H, L, R with
  | [h0; h1; h2; h3; h4], [a; b; c; d; e], [a'; b'; c'; d'; e'] =>
      [sum [h1; c; d']; sum [h2; d; e']; sum [h3; e; a'];
       sum [h4; a; b']; sum [h0; b; c']]
  | _, _, _ => H
  end.

Definition hash (msg : list byte) : list Z :=
  fold_left compress (blocks len64_le of_le msg) H0.

(** The digest: the five words of the final state, little-endian. *)
Definition digest (msg : list byte) : list byte :=
  take 20 (flat_map to_le (hash msg) ++ replicate 20 x00).

Lemma length_ripemd160_digest msg : length (digest msg) = 20%nat.
Proof.
  unfold digest. rewrite length_take, length_app, length_replicate. lia.
Qed.

Definition Sum : Ripemd160 := fun data => mk_array (digest data) (length_ripemd160_digest data).

End ripemd160.

(** ** core/types/transaction.go *)

Module types.

Record TxInput : Type := mkTxInput {
  TxID : list byte;
  OutputIndex : Z;
  Sig : string
}.

Record TxOutput : Type := mkTxOutput {
  Amount : Z;
  PubKey : string
}.

Record Transaction : Type := mkTransaction {
  ID : list byte;
  Inputs : list TxInput;
  Outputs : list TxOutput
}.

(** dbutil.Serialize is not among the sources: the encoder of a
    transaction is a parameter of the model. *)
Class Serializer := Serialize : Transaction -> list byte.

Section Construction.
Context `{Sha256} `{Serializer}.

(** [setID]: the hash of the encoding of the transaction, taken while
    its ID is still nil. *)
Definition setID (tx : Transaction) : Transaction :=
  let txEncoded := Serialize tx in
  let hash := Sum256 txEncoded in
  {| ID := elems hash; Inputs := Inputs tx; Outputs := Outputs tx |}.

Definition initTransaction (inputs : list TxInput) (outputs : list TxOutput)
  : Transaction :=
  setID {| ID := []; Inputs := inputs; Outputs := outputs |}.

(** The inner loop of [CreateTransaction]: one input per index. *)
Definition appendInputs (newInputs : list TxInput) (txID : list byte)
    (from : string) (utxoIdxs : list Z) : list TxInput :=
  fold_left (fun acc utxoIdx => acc ++ [mkTxInput txID utxoIdx from])
            utxoIdxs newInputs.

(** The outer loop of [CreateTransaction].  [utxos] lists the entries
    of the Go map in the order in which [range] visits them (Go leaves
    that order unspecified, so results are stated for every order). *)
Fixpoint collectInputs (newInputs : list TxInput) (from : string)
    (utxos : list (string * list Z)) : outcome (list TxInput) :=
  match utxos with
  | [] => Returned newInputs
  | (txID, utxoIdxs) :: rest =>
      let '(txID, err) := hex.DecodeString txID in
      _ ← HandleErr err;
      collectInputs (appendInputs newInputs txID from utxoIdxs) from rest
  end.

Definition CreateTransaction (from to : string) (amount txoSum : Z)
    (utxos : list (string * list Z)) : outcome Transaction :=
  _ ← (if txoSum <? amount
       then Panicked (LogPanic "Error: Not enough funds")
       else Returned tt);
  newInputs ← collectInputs [] from utxos;
  let newOutputs := [mkTxOutput amount to] in
  let newOutputs :=
    if txoSum >? amount
    then newOutputs ++ [mkTxOutput (int_sub txoSum amount) from]
    else newOutputs in
  Returned (initTransaction newInputs newOutputs).

Definition CoinbaseTx (to : string) : Transaction :=
  let value := 100 in
  let txin := mkTxInput [] (-1) (fmt_d value ++ " coins to " ++ to) in
  let txout := mkTxOutput value to in
  initTransaction [txin] [txout].

End Construction.

Definition IsCoinbase (tx : Transaction) : bool :=
  match Inputs tx with
  | [txin] =>
      (Z.of_nat (length (TxID txin)) =? 0) && (OutputIndex txin =? -1)
  | _ => false
  end.

Definition CanUnlock (txin : TxInput) (newSig : string) : bool :=
  bool_decide (Sig txin = newSig).

Definition CanBeUnlocked (txout : TxOutput) (newPubKey : string) : bool :=
  bool_decide (PubKey txout = newPubKey).

(** *** Observations on transactions, used to state their properties *)

(** The string is a well-formed hexadecimal transaction id. *)
Definition hex_ok (txID : string) : Prop := (hex.DecodeString txID).2 = None.

(** The (txID, index) pairs a spend set refers to, in visiting order. *)
Definition references (utxos : list (string * list Z)) : list (string * Z) :=
  flat_map (fun '(txID, utxoIdxs) => (fun i => (txID, i)) <$> utxoIdxs) utxos.

(** The input that [CreateTransaction] builds for one reference. *)
Definition input_for (from : string) (ref : string * Z) : TxInput :=
  mkTxInput (hex.DecodeString ref.1).1 ref.2 from.

(** Sum of output amounts, as Go adds [int]s. *)
Definition sum_amounts (outputs : list TxOutput) : Z :=
  fold_left (fun acc o => int_add acc (Amount o)) outputs 0.

(** The output pays [to] exactly [amount]. *)
Definition pays (to : string) (amount : Z) (o : TxOutput) : Prop :=
  Amount o = amount /\ PubKey o = to.

Global Instance pays_dec to amount o : Decision (pays to amount o).
Proof. unfold pays. apply _. Defined.

End types.


(** ** wallet/wallet.go *)

Module wallet.

Definition ChecksumLen : Z := 4.
Definition version : byte := x00.

(** ecdsa.PrivateKey on the fixed curve P-256: the public point and the
    secret scalar. *)
Record ecdsa_PrivateKey : Type := mk_ecdsa_PrivateKey {
  X : Z;
  Y : Z;
  D : Z
}.

Record Wallet : Type := mkWallet {
  PrivateKey : ecdsa_PrivateKey;
  PublicKey : list byte
}.

(** walletutil.Base58Encode and walletutil.Base58Decode are not among the
    sources: the codec is a parameter of the model.  Decoding may refuse
    its input, which these packages turn into a panic. *)
Class Base58 := {
  Base58Encode : list byte -> list byte;
  Base58Decode : list byte -> outcome (list byte)
}.

Section Addresses.
Context `{Sha256} `{Ripemd160} `{Base58}.

(** [checksum]: the first [ChecksumLen] bytes of the double SHA-256. *)
Definition checksum (payload : list byte) : list byte :=
  let firstSHA := Sum256 payload in
  let secondSHA := Sum256 (elems firstSHA) in
  take (Z.to_nat ChecksumLen) (elems secondSHA).

(** [HashPubKey]: RIPEMD-160 of SHA-256; the hasher's [Write] never
    reports an error. *)
Definition HashPubKey (pubKey : list byte) : list byte :=
  let shaPubKey := Sum256 pubKey in
  let ripemdPubKey := ripemd160_Sum (elems shaPubKey) in
  elems ripemdPubKey.

Definition GetAddress (w : Wallet) : list byte :=
  let pubKeyHash := HashPubKey (PublicKey w) in
  let versionedHash := [version] ++ pubKeyHash in
  let checksum := checksum versionedHash in
  let fullHash := versionedHash ++ checksum in
  Base58Encode fullHash.

Definition ValidateAddress (address : string) : outcome bool :=
  decodedAddress ← Base58Decode (list_byte_of_string address);
  let len := Z.of_nat (length decodedAddress) in
  addressChecksum ← slice_from decodedAddress (len - ChecksumLen);
  payload ← slice decodedAddress 0 (len - ChecksumLen);
  let targetChecksum := checksum payload in
  Returned (bytes_Compare addressChecksum targetChecksum =? 0).

Definition GetPubKeyHashFromAddress (address : string) : outcome (list byte) :=
  decodedAddress ← Base58Decode (list_byte_of_string address);
  slice decodedAddress 1 (Z.of_nat (length decodedAddress) - ChecksumLen).

End Addresses.

End wallet.

(** ** wallet/wallets.go *)

Module wallets.
Import wallet.

(** [Wallets]: the Go map holds pointers; a key that is absent reads as
    the nil pointer. *)
Record Wallets : Type := mkWallets {
  Wallets_map : gmap string Wallet
}.

(** What the operating system answers about the snapshot file
    [./tmp/wallets.dat]: the error of [os.Stat] and the result of
    [ioutil.ReadFile]. *)
Record Disk : Type := mkDisk {
  os_Stat : option error;
  ioutil_ReadFile : list byte * option error
}.

(** [os.IsNotExist] *)
Definition os_IsNotExist (err : option error) : bool :=
  match err with
  | Some ErrNotExist => true
  | _ => false
  end.

(** encoding/gob: decoding a snapshot into a [Wallets] value. *)
Class Gob := gob_Decode : list byte -> Wallets * option error.

Section Collection.
Context `{Gob}.

(** [LoadFromFile]: the receiver after the call, and the error. *)
Definition LoadFromFile (disk : Disk) (ws : Wallets)
  : outcome (Wallets * option error) :=
  let err := os_Stat disk in
  if os_IsNotExist err then Returned (ws, err)
  else
    let '(data, err) := ioutil_ReadFile disk in
    _ ← HandleErr err;
    let '(wallets, err) := gob_Decode data in
    _ ← HandleErr err;
    Returned (mkWallets (Wallets_map wallets), None).

Definition InitWallets (disk : Disk) : outcome (Wallets * option error) :=
  let wallets := mkWallets ∅ in
  '(wallets, err) ← LoadFromFile disk wallets;
  Returned (wallets, err).

End Collection.

(** [GetWallet]: dereferences the pointer found in the map. *)
Definition GetWallet (ws : Wallets) (address : string) : outcome Wallet :=
  match Wallets_map ws !! address with
  | Some w => Returned w
  | None => Panicked (RuntimePanic NilDereference)
  end.

(** [GetAddresses]: the keys, in the unspecified order of [range]. *)
Definition GetAddresses (ws : Wallets) : list string :=
  (map_to_list (Wallets_map ws)).*1.

End wallets.

(** ** The embedded key-value engine (badger), as db.go uses it *)

Module badger.

Abbreviation store := (gmap (list byte) (list byte)).

(** What the engine may refuse beyond the cases spelled out below:
    limits on an entry (key or value size, reserved key prefix) and a
    failing commit. *)
Class Engine := {
  entry_check : list byte -> list byte -> option error;
  commit_check : store -> store -> option error
}.

(** A transaction: the committed state it reads, the writes it has
    buffered, and whether it may write. *)
Record Txn : Type := mkTxn {
  committed : store;
  pending : store;
  update : bool
}.

(** [txn.Get]: the item (nil when there is none) and the error. *)
Definition Get (txn : Txn) (key : list byte)
  : option (list byte) * option error :=
  match key with
  | [] => (None, Some ErrEmptyKey)
  | _ =>
      match pending txn !! key with
      | Some v => (Some v, None)
      | None =>
          match committed txn !! key with
          | Some v => (Some v, None)
          | None => (None, Some ErrKeyNotFound)
          end
      end
  end.

(** [item.Value()] on the pointer returned by [Get]. *)
Definition Value (item : option (list byte))
  : outcome (list byte * option error) :=
  match item with
  | Some v => Returned (v, None)
  | None => Panicked (RuntimePanic NilDereference)
  end.

Section Transactions.
Context `{Engine}.

(** [txn.Set]: buffers the write. *)
Definition Set_ (txn : Txn) (key val : list byte) : Txn * option error :=
  if negb (update txn) then (txn, Some ErrReadOnlyTxn)
  else
    match key with
    | [] => (txn, Some ErrEmptyKey)
    | _ =>
        match entry_check key val with
        | Some e => (txn, Some e)
        | None =>
            (mkTxn (committed txn) (<[key := val]> (pending txn)) (update txn),
             None)
        end
    end.

(** [db.View(fn)]: runs [fn] in a read-only transaction, which is then
    discarded (also when [fn] panics).  [R] is what [fn] leaves in the
    variables it captured. *)
Definition View {R : Type} (db : store)
    (fn : Txn -> outcome (Txn * R * option error))
  : store * outcome (R * option error) :=
  match fn (mkTxn db ∅ false) with
  | Panicked p => (db, Panicked p)
  | Returned (_, r, err) => (db, Returned (r, err))
  end.

(** [db.Update(fn)]: runs [fn] in a read-write transaction; the buffered
    writes are committed together when [fn] returns nil, and discarded
    when [fn] returns an error, panics, or the commit fails. *)
Definition Update {R : Type} (db : store)
    (fn : Txn -> outcome (Txn * R * option error))
  : store * outcome (R * option error) :=
  match fn (mkTxn db ∅ true) with
  | Panicked p => (db, Panicked p)
  | Returned (txn, r, Some e) => (db, Returned (r, Some e))
  | Returned (txn, r, None) =>
      match commit_check db (pending txn) with
      | Some e => (db, Returned (r, Some e))
      | None => (pending txn ∪ db, Returned (r, None))
      end
  end.

End Transactions.

End badger.

(** ** chaindb/db.go *)

Module chaindb.
Import badger.

Definition LastHashKey : list byte := list_byte_of_string "lastHashKey".

(** types.Block and the dbutil encoders of blocks are not among the
    sources: the block type, its [Hash] field and its codec are
    parameters of the model. *)
Class BlockCodec (Block : Type) := {
  Hash : Block -> list byte;
  SerializeBlock : Block -> list byte;
  DeserializeBlock : list byte -> outcome Block
}.

Section Methods.
Context `{Engine} {Block : Type} `{BlockCodec Block}.

(** A method of [*ChainDB]: from the stored state to the state after the
    call and the outcome of the call. *)
Definition method (A : Type) : Type := store -> store * outcome A.

Definition HasChain : method bool := fun db =>
  let '(db, res) :=
    View db (fun txn =>
      let '(_, err) := Get txn LastHashKey in
      match err with
      | Some ErrKeyNotFound => Returned (txn, false, err)
      | _ => Returned (txn, true, None)
      end) in
  (db, '(exists_, err) ← res; _ ← HandleErr err; Returned exists_).

Definition GetLastHash : method (list byte) := fun db =>
  let '(db, res) :=
    View db (fun txn =>
      let '(item, err) := Get txn LastHashKey in
      _ ← HandleErr err;
      '(lastHash, err) ← Value item;
      Returned (txn, lastHash, err)) in
  (db, '(lastHash, err) ← res; _ ← HandleErr err; Returned lastHash).

(** The result is a pointer: [None] is nil. *)
Definition GetBlockWithHash (hash : list byte) : method (option Block) :=
  fun db =>
  let '(db, res) :=
    View db (fun txn =>
      let '(item, err) := Get txn hash in
      _ ← HandleErr err;
      '(value, err) ← Value item;
      resBlock ← DeserializeBlock value;
      Returned (txn, Some resBlock, err)) in
  (db, '(resBlock, err) ← res; _ ← HandleErr err; Returned resBlock).

(** [newBlock] is a pointer: [None] is nil. *)
Definition SaveNewLastBlock (newBlock : option Block) : method unit :=
  fun db =>
  let '(db, res) :=
    Update db (fun txn =>
      match newBlock with
      | None => Panicked (RuntimePanic NilDereference)
      | Some b =>
          let '(txn, err) := Set_ txn (Hash b) (SerializeBlock b) in
          _ ← HandleErr err;
          let '(txn, err) := Set_ txn LastHashKey (Hash b) in
          Returned (txn, tt, err)
      end) in
  (db, '(_, err) ← res; HandleErr err).

End Methods.

(** *** Observations on the store, used to state its properties *)

(** The operations of the chain store. *)
Inductive op (Block : Type) : Type :=
  | OpHasChain
  | OpGetLastHash
  | OpGetBlockWithHash (hash : list byte)
  | OpSaveNewLastBlock (newBlock : option Block).
Arguments OpHasChain {Block}.
Arguments OpGetLastHash {Block}.
Arguments OpGetBlockWithHash {Block} hash.
Arguments OpSaveNewLastBlock {Block} newBlock.

(** The tip, when there is one, names a stored key. *)
Definition tip_stored (db : store) : Prop :=
  forall h, db !! LastHashKey = Some h -> is_Some (db !! h).

Section Observations.
Context `{Engine} {Block : Type} `{BlockCodec Block}.

(** The state an operation leaves behind, whether it returns or panics
    (a panic ends the process, the store stays on disk). *)
Definition state_after (o : op Block) (db : store) : store :=
  match o with
  | OpHasChain => (HasChain db).1
  | OpGetLastHash => (GetLastHash db).1
  | OpGetBlockWithHash hash => (GetBlockWithHash hash db).1
  | OpSaveNewLastBlock newBlock => (SaveNewLastBlock newBlock db).1
  end.

Definition run (ops : list (op Block)) (db : store) : store :=
  fold_left (fun db o => state_after o db) ops db.

(** Both writes of an append, applied to [db] in program order. *)
Definition appended (b : Block) (db : store) : store :=
  <[LastHashKey := Hash b]> (<[Hash b := SerializeBlock b]> db).

End Observations.

End chaindb.


(** ** wallet/walletutil: base58 *)

Module base58.

(** The 58 symbols, in digit order. *)
Definition alphabet : list byte :=
  list_byte_of_string
    "123456789ABCDEFGHJKLMNPQRSTUVWXYZabcdefghijkmnopqrstuvwxyz".

(** Digits of [n] in base [b], least significant first; [fuel] bounds the
    number of divisions. *)
Fixpoint digits_le (fuel : nat) (b n : N) : list N :=
  match fuel with
  | O => []
  | S fuel' =>
      if (n =? 0)%N then []
      else (n mod b)%N :: digits_le fuel' b (n / b)%N
  end.

(** The number written by digits given least significant first (used to
    state the properties of [digits_le]). *)
Definition value_le (b : N) (ds : list N) : N :=
  fold_right (fun d acc => acc * b + d)%N 0%N ds.

(** One division per bit of [n] always suffices for a base of at least 2. *)
Definition fuel_for (n : N) : nat := S (N.to_nat (N.log2 n)).

(** Digits of [n] in base [b], most significant first; none for 0. *)
Definition digits (b n : N) : list N := rev (digits_le (fuel_for n) b n).

(** The number written by digits given most significant first. *)
Definition number (b : N) (ds : list N) : N :=
  fold_left (fun acc d => acc * b + d)%N ds 0%N.

(** How many zero digits the list starts with. *)
Fixpoint leading_zeros (ds : list N) : nat :=
  match ds with
  | 0%N :: ds' => S (leading_zeros ds')
  | _ => 0%nat
  end.

Definition symbol (d : N) : byte := nth (N.to_nat d) alphabet x00.

Fixpoint index_in (l : list byte) (c : byte) : option N :=
  match l with
  | [] => None
  | x :: l' =>
      if decide (x = c) then Some 0%N else N.succ <$> index_in l' c
  end.

Definition index : byte -> option N := index_in alphabet.

(** Modelled from the spec: walletutil.Base58Encode is not among the
    sources; the specification names the encoding "base58" (section 3,
    invariant 4).  Every leading zero byte becomes the symbol of digit 0,
    the rest is the payload read as a big-endian number and written in
    base 58. *)
Definition Encode (input : list byte) : list byte :=
  let ns := Byte.to_N <$> input in
  replicate (leading_zeros ns) (symbol 0) ++ (symbol <$> digits 58 (number 256 ns)).

(** Modelled from the spec: walletutil.Base58Decode is not among the
    sources.  The inverse of [Encode]; a byte outside the alphabet is an
    error, which (section 7, the observed policy) terminates. *)
Definition Decode (input : list byte) : outcome (list byte) :=
  match mapM index input with
  | None =>
      _ ← HandleErr (Some (ErrDecode "invalid base58 digit"));
      Returned []
  | Some ds =>
      Returned (replicate (leading_zeros ds) x00
                ++ (byte_of_N <$> digits 256 (number 58 ds)))
  end.

Definition codec : wallet.Base58 :=
  {| wallet.Base58Encode := Encode; wallet.Base58Decode := Decode |}.

End base58.

(** ** math/big *)

Module big.

(** The [Bytes] method of [big.Int]: the absolute value as big-endian
    bytes without leading zero bytes; no byte at all for 0. *)
Definition Bytes (x : Z) : list byte :=
  byte_of_N <$> base58.digits 256 (Z.to_N (Z.abs x)).

End big.

(** ** wallet/wallet.go: key pairs *)

Module wallet_keys.
Import wallet.

(** [createKeyPair].  What [ecdsa.GenerateKey(elliptic.P256(), rand.Reader)]
    hands back, a key pointer and an error, depends on the random source
    and is an argument of the model. *)
Definition createKeyPair (generated : option ecdsa_PrivateKey * option error)
  : outcome (ecdsa_PrivateKey * list byte) :=
  let '(privKey, err) := generated in
  _ ← HandleErr err;
  match privKey with
  | None => Panicked (RuntimePanic NilDereference)
  | Some privKey =>
      let pubKey := big.Bytes (X privKey) ++ big.Bytes (Y privKey) in
      Returned (privKey, pubKey)
  end.

Definition InitWallet (generated : option ecdsa_PrivateKey * option error)
  : outcome Wallet :=
  '(priv, pub) ← createKeyPair generated;
  Returned (mkWallet priv pub).

End wallet_keys.

(** ** wallet/wallets.go: creating and saving wallets *)

Module wallets_io.
Import wallet wallet_keys wallets.

(** encoding/gob: encoding a [Wallets] value into a buffer. *)
Class GobEncoder := gob_Encode : Wallets -> list byte * option error.

(** When [ioutil.WriteFile] fails on the snapshot file: the error and
    the state the file is left in ([None]: the write succeeds). *)
Class FileWriter := write_failure : Disk -> list byte -> option (error * Disk).


Section Collection.
Context `{Sha256} `{Ripemd160} `{Base58} `{GobEncoder} `{FileWriter}.

(** [CreateWallet]: the collection after the call and the new address.
    [fmt.Sprintf("%s", b)] of a byte slice is the string of its bytes.
    The map written to is an allocated one, as [InitWallets] makes it (a
    write to a nil map would panic in Go). *)
Definition CreateWallet (generated : option ecdsa_PrivateKey * option error)
    (ws : Wallets) : outcome (Wallets * string) :=
  wallet ← InitWallet generated;
  let address := string_of_list_byte (GetAddress wallet) in
  Returned (mkWallets (<[address := wallet]> (Wallets_map ws)), address).


End Collection.

End wallets_io.

(** ** Stand-ins for the collaborators that are not among the sources

    The results of Part II hold for every encoder and engine.  The
    instances below are only used to run the model on concrete inputs. *)

Module sample.

(** An encoding of the inputs and outputs of a transaction, field after
    field. *)
Definition serializer : types.Serializer := fun tx =>
  flat_map (fun i => types.TxID i
                     ++ word32.len64_be (types.OutputIndex i mod 2 ^ 64)
                     ++ list_byte_of_string (types.Sig i))
           (types.Inputs tx)
  ++ flat_map (fun o => word32.len64_be (types.Amount o mod 2 ^ 64)
                        ++ list_byte_of_string (types.PubKey o))
              (types.Outputs tx).

(** A spend set: output 0 of one earlier transaction. *)
Definition spend : list (string * list Z) := [("abcd"%string, [0])].

(** A decoder that finds no wallet in any snapshot. *)
Definition gob : wallets.Gob := fun _ => (wallets.mkWallets ∅, None).

(** An encoder that writes every collection as the empty snapshot, and a
    file system on which writes succeed. *)
Definition gob_encoder : wallets_io.GobEncoder := fun _ => ([], None).
Definition file_writer : wallets_io.FileWriter := fun _ _ => None.

(** A generated key (the base point of P-256). *)
Definition key : wallet.ecdsa_PrivateKey :=
  wallet.mk_ecdsa_PrivateKey
    48439561293906451759052585252797914202762949526041747995844080717082404635286
    36134250956749795798585127919587881956611106672985015071877198253568414405109
    1.

(** An engine without limits whose commits succeed. *)
Definition engine : badger.Engine :=
  {| badger.entry_check := fun _ _ => None;
     badger.commit_check := fun _ _ => None |}.

(** Blocks reduced to a two-byte hash and an opaque payload; a record is
    the hash followed by the payload. *)
Definition block_codec : chaindb.BlockCodec (list byte * list byte) :=
  {| chaindb.Hash := fst;
     chaindb.SerializeBlock := fun b => b.1 ++ b.2;
     chaindb.DeserializeBlock := fun v => Returned (take 2 v, drop 2 v) |}.

(** A block whose hash is the tip key of the chain store. *)
Definition block_tip : list byte * list byte := (chaindb.LastHashKey, [x0a]).

(** Two blocks for that codec. *)
Definition block1 : list byte * list byte := ([x01; x02], [x0a]).
Definition block2 : list byte * list byte := ([x03; x04], [x0b]).

End sample.


(* ===================================================================== *)
(** * Part II: properties                                                *)
(* ===================================================================== *)

(** ** The Go runtime *)

Lemma int_wrap_id z : is_int z -> int_wrap z = z.
Proof.
  unfold is_int, int_wrap, int_min, int_max. intros Hz.
  rewrite Z.mod_small; lia.
Qed.

Lemma int_wrap_add_r a b : int_wrap (a + int_wrap b) = int_wrap (a + b).
Proof.
  unfold int_wrap.
  replace (a + ((b + 2 ^ 63) mod 2 ^ 64 - 2 ^ 63) + 2 ^ 63)
    with (a + (b + 2 ^ 63) mod 2 ^ 64) by lia.
  rewrite Zplus_mod_idemp_r. f_equal. f_equal. lia.
Qed.

(** Adding back what was subtracted restores the minuend, also when the
    subtraction wrapped. *)
Lemma int_add_sub a t : is_int t -> int_add a (int_sub t a) = t.
Proof.
  intros Ht. unfold int_add, int_sub. rewrite int_wrap_add_r.
  replace (a + (t - a)) with t by lia. by apply int_wrap_id.
Qed.

Lemma int_add_0_l a : is_int a -> int_add 0 a = a.
Proof. intros Ha. unfold int_add. rewrite Z.add_0_l. by apply int_wrap_id. Qed.

Lemma int_sub_exact a t : 0 <= a -> a <= t -> is_int t -> int_sub t a = t - a.
Proof.
  unfold is_int, int_min, int_max. intros Ha Hat Ht.
  apply int_wrap_id. unfold is_int, int_min, int_max. lia.
Qed.

Lemma terminates_not_returns {A} (o : outcome A) :
  terminates_process o -> ~ returns o.
Proof. intros [p ->] [a Ha]. discriminate. Qed.

(** ** encoding/hex *)

(** Only the empty string decodes, without error, to no bytes at all. *)
Lemma hex_Decode_nil src : hex.Decode src = ([], None) -> src = [].
Proof.
  destruct src as [|p [|q rest]]; simpl; [done | |].
  - destruct (hex.fromHexChar p); discriminate.
  - destruct (hex.fromHexChar p); [|discriminate].
    destruct (hex.fromHexChar q); [|discriminate].
    destruct (hex.Decode rest). discriminate.
Qed.

Lemma list_byte_of_string_nil s : list_byte_of_string s = [] -> s = ""%string.
Proof.
  intros Hs. rewrite <- (string_of_list_byte_of_string s), Hs. reflexivity.
Qed.

Lemma hex_DecodeString_nil s :
  hex.DecodeString s = ([], None) <-> s = ""%string.
Proof.
  split.
  - intros Hs. by apply list_byte_of_string_nil, hex_Decode_nil.
  - intros ->. reflexivity.
Qed.

(** ** core/types/transaction.go *)

Module types_facts.
Import types.

Section Facts.
Context `{Sha256} `{Serializer}.

Lemma appendInputs_app newInputs txID from utxoIdxs :
  appendInputs newInputs txID from utxoIdxs
  = newInputs ++ ((fun i => mkTxInput txID i from) <$> utxoIdxs).
Proof.
  unfold appendInputs. revert newInputs.
  induction utxoIdxs as [|i idxs IH]; intros acc; simpl.
  - by rewrite app_nil_r.
  - rewrite IH, <- app_assoc. reflexivity.
Qed.

Lemma inputs_of_references from txID utxoIdxs rest :
  input_for from <$> references ((txID, utxoIdxs) :: rest)
  = ((fun i => mkTxInput (hex.DecodeString txID).1 i from) <$> utxoIdxs)
    ++ (input_for from <$> references rest).
Proof.
  unfold references. simpl. rewrite fmap_app. f_equal.
  rewrite <- list_fmap_compose. reflexivity.
Qed.

(** The loops succeed exactly when every key is well-formed, and then
    build one input per reference, in order. *)
Lemma collectInputs_Returned newInputs from utxos ins :
  collectInputs newInputs from utxos = Returned ins
  <-> Forall (fun kv => hex_ok kv.1) utxos
      /\ ins = newInputs ++ (input_for from <$> references utxos).
Proof.
  revert newInputs. induction utxos as [|[txID idxs] rest IH]; intros acc.
  - simpl. rewrite app_nil_r. split.
    + intros [= ->]. by split.
    + intros [_ ->]. reflexivity.
  - rewrite inputs_of_references, Forall_cons. unfold hex_ok at 1. simpl.
    destruct (hex.DecodeString txID) as [bs [e|]]; simpl.
    + split; [discriminate | intros [[? _] _]; discriminate].
    + rewrite IH, appendInputs_app, <- app_assoc. tauto.
Qed.

Lemma Inputs_initTransaction ins outs : Inputs (initTransaction ins outs) = ins.
Proof. reflexivity. Qed.

Lemma Outputs_initTransaction ins outs : Outputs (initTransaction ins outs) = outs.
Proof. reflexivity. Qed.

(** What a successful [CreateTransaction] has built. *)
Lemma CreateTransaction_Returned from to amount txoSum utxos tx :
  CreateTransaction from to amount txoSum utxos = Returned tx
  <-> amount <= txoSum
      /\ Forall (fun kv => hex_ok kv.1) utxos
      /\ tx = initTransaction (input_for from <$> references utxos)
                (mkTxOutput amount to ::
                 if decide (amount < txoSum)
                 then [mkTxOutput (int_sub txoSum amount) from] else []).
Proof.
  unfold CreateTransaction.
  destruct (Z.ltb_spec txoSum amount) as [Hlt|Hge]; simpl.
  { split; [discriminate | lia]. }
  destruct (collectInputs [] from utxos) as [ins|p] eqn:Hins; simpl.
  - apply collectInputs_Returned in Hins as [Hok ->]. simpl.
    destruct (Z.gtb_spec txoSum amount); destruct (decide (amount < txoSum));
      try lia; simpl; (split; [intros [= <-]; done | intros (_ & _ & ->); done]).
  - split; [discriminate |]. intros (_ & Hok & _).
    assert (Hr : collectInputs [] from utxos
                 = Returned ([] ++ (input_for from <$> references utxos)))
      by (by apply collectInputs_Returned).
    congruence.
Qed.

End Facts.
End types_facts.

Section TransactionClaims.
Import types types_facts.
Context `{Sha256} `{Serializer}.

(** C1, as amended.  For every call of [CreateTransaction] with in-range
    integers, [amount <= txoSum] and well-formed transaction ids, the
    transaction is constructed; its output amounts sum to [txoSum]; its
    first output pays [to] exactly [amount]; a second (change) output of
    [txoSum - amount] (the exact difference when [amount] is not
    negative, Go's wrapped difference otherwise) locked to [from] is
    present iff [txoSum > amount], and there is no third output; and
    exactly one output pays [to] exactly [amount], except that there are
    two when the change output does so as well ([from = to] and the
    change equals [amount]). *)
Theorem CreateTransaction_conserves_value from to amount txoSum utxos :
  is_int amount -> is_int txoSum -> amount <= txoSum ->
  Forall (fun kv => hex_ok kv.1) utxos ->
  exists tx,
    CreateTransaction from to amount txoSum utxos = Returned tx
    /\ sum_amounts (Outputs tx) = txoSum
    /\ Outputs tx !! 0%nat = Some (mkTxOutput amount to)
    /\ (Outputs tx !! 1%nat = Some (mkTxOutput (int_sub txoSum amount) from)
        <-> amount < txoSum)
    /\ (is_Some (Outputs tx !! 1%nat) <-> amount < txoSum)
    /\ Outputs tx !! 2%nat = None
    /\ (0 <= amount -> int_sub txoSum amount = txoSum - amount)
    /\ length (filter (pays to amount) (Outputs tx))
       = if decide (amount < txoSum /\ from = to /\ int_sub txoSum amount = amount)
         then 2%nat else 1%nat.
Proof.
  intros Ha Ht Hle Hok. eexists. split.
  { apply CreateTransaction_Returned. by repeat split. }
  rewrite Outputs_initTransaction.
  destruct (decide (amount < txoSum)) as [Hlt|Hnlt].
  - split_and!.
    + unfold sum_amounts. simpl.
      rewrite (int_add_0_l amount Ha). by apply int_add_sub.
    + reflexivity.
    + by split.
    + split; [done | by eexists].
    + reflexivity.
    + intros ?. by apply int_sub_exact.
    + rewrite filter_cons_True by done. rewrite filter_cons.
      unfold pays at 1. simpl.
      destruct (decide (int_sub txoSum amount = amount /\ from = to)) as [[? ?]|Hn];
        case_decide; simpl; try done; tauto.
  - assert (txoSum = amount) as -> by lia. split_and!.
    + unfold sum_amounts. simpl. by apply int_add_0_l.
    + reflexivity.
    + split; [discriminate | lia].
    + split; [intros [? [=]] | lia].
    + reflexivity.
    + intros ?. by apply int_sub_exact.
    + rewrite filter_cons_True by done. simpl.
      case_decide; [lia | done].
Qed.

(** C2, as amended.  With [txoSum < amount], [CreateTransaction] builds
    nothing and produces no transaction, whatever the spend set holds:
    it stops in [log.Panic] with the message "Error: Not enough funds".
    The failure is a panic, not an error value handed to the caller. *)
Theorem CreateTransaction_insufficient_funds from to amount txoSum utxos :
  txoSum < amount ->
  CreateTransaction from to amount txoSum utxos
  = Panicked (LogPanic "Error: Not enough funds").
Proof.
  intros Hlt. unfold CreateTransaction.
  destruct (Z.ltb_spec txoSum amount); [reflexivity | lia].
Qed.

(** C4, as amended.  [CoinbaseTx to] has exactly one input, with an empty
    referenced transaction id and output index -1, and exactly one output,
    crediting 100 units to [to]; [IsCoinbase] holds of it.  On a
    transaction built by [CreateTransaction], [IsCoinbase] is false unless
    the spend set consists of exactly one reference, with the empty
    transaction id and index -1, and then it is true. *)
Theorem IsCoinbase_classifies to from to' amount txoSum utxos tx :
  CreateTransaction from to' amount txoSum utxos = Returned tx ->
  (Inputs (CoinbaseTx to) = [mkTxInput [] (-1) ("100 coins to " ++ to)]
   /\ Outputs (CoinbaseTx to) = [mkTxOutput 100 to]
   /\ IsCoinbase (CoinbaseTx to) = true)
  /\ (IsCoinbase tx = true <-> references utxos = [(""%string, -1)]).
Proof.
  intros Htx. split; [by repeat split|].
  apply CreateTransaction_Returned in Htx as (_ & Hok & ->).
  unfold IsCoinbase. rewrite Inputs_initTransaction.
  assert (Hin : forall r, In r (references utxos) -> hex_ok r.1).
  { intros [k i] Hr. unfold references in Hr.
    apply in_flat_map in Hr as ([k' idxs] & Hkv & Hr).
    apply (proj2 (list_elem_of_In _ _)), list_elem_of_fmap in Hr
      as (j & [= -> ->] & _).
    rewrite Forall_forall in Hok.
    exact (Hok _ (proj2 (list_elem_of_In _ _) Hkv)). }
  destruct (references utxos) as [|[k i] [|r rs]]; simpl.
  - split; discriminate.
  - specialize (Hin (k, i) (or_introl eq_refl)). unfold hex_ok in Hin. simpl in Hin.
    rewrite andb_true_iff, Z.eqb_eq, Z.eqb_eq. split.
    + intros [Hlen ->]. f_equal. f_equal.
      apply hex_DecodeString_nil.
      destruct (hex.DecodeString k) as [bs e]. simpl in *. subst e.
      destruct bs; [done | simpl in Hlen; lia].
    + intros [= -> ->]. done.
  - split; discriminate.
Qed.

End TransactionClaims.

Section TransactionExamples.
Import types types_facts.
Local Existing Instance sha256.Sum256.
Local Existing Instance sample.serializer.

(** C1, as stated, fails: in a transfer to oneself of half the available
    amount, two outputs pay [to] exactly [amount]. *)
Lemma CreateTransaction_two_payments :
  exists tx,
    CreateTransaction "A1" "A1" 5 10 [] = Returned tx
    /\ Outputs tx = [mkTxOutput 5 "A1"; mkTxOutput 5 "A1"]
    /\ length (filter (pays "A1" 5) (Outputs tx)) = 2%nat.
Proof. eexists. split_and!; reflexivity. Qed.

Lemma CreateTransaction_conserves_value_witness :
  exists tx,
    CreateTransaction "A1" "A2" 40 100 sample.spend = Returned tx
    /\ sum_amounts (Outputs tx) = 100
    /\ Outputs tx = [mkTxOutput 40 "A2"; mkTxOutput 60 "A1"].
Proof.
  destruct (CreateTransaction_conserves_value "A1" "A2" 40 100 sample.spend)
    as (tx & Htx & Hsum & _).
  - unfold is_int, int_min, int_max. lia.
  - unfold is_int, int_min, int_max. lia.
  - lia.
  - repeat constructor.
  - exists tx. split_and!; [exact Htx | exact Hsum |].
    vm_compute in Htx. injection Htx as <-. reflexivity.
Defined.

(** C2, as stated, fails: the call does not come back to its caller. *)
Lemma CreateTransaction_insufficient_funds_fatal :
  CreateTransaction "A1" "A2" 100 50 sample.spend
  = Panicked (LogPanic "Error: Not enough funds")
  /\ terminates_process (CreateTransaction "A1" "A2" 100 50 sample.spend)
  /\ ~ returns (CreateTransaction "A1" "A2" 100 50 sample.spend).
Proof.
  assert (Ht : terminates_process (CreateTransaction "A1" "A2" 100 50 sample.spend))
    by (by eexists).
  split_and!; [reflexivity | exact Ht | by apply terminates_not_returns].
Qed.

Lemma CreateTransaction_insufficient_funds_witness :
  50 < 100
  /\ CreateTransaction "A1" "A2" 100 50 sample.spend
     = Panicked (LogPanic "Error: Not enough funds").
Proof.
  split; [lia|].
  apply (CreateTransaction_insufficient_funds "A1" "A2" 100 50 sample.spend). lia.
Defined.

(** C4, as stated, fails: a spend set that is not empty, holding the one
    reference (empty id, index -1), yields a transaction that
    [IsCoinbase] accepts. *)
Lemma IsCoinbase_accepts_transfer :
  exists tx,
    CreateTransaction "A1" "A2" 0 0 [(""%string, [-1])] = Returned tx
    /\ Inputs tx = [mkTxInput [] (-1) "A1"]
    /\ IsCoinbase tx = true.
Proof. eexists. split_and!; reflexivity. Qed.

Lemma IsCoinbase_classifies_witness :
  exists tx,
    CreateTransaction "A1" "A2" 40 100 sample.spend = Returned tx
    /\ IsCoinbase (CoinbaseTx "A1") = true
    /\ IsCoinbase tx = false.
Proof.
  eexists. split; [reflexivity|].
  destruct (IsCoinbase_classifies "A1" "A1" "A2" 40 100 sample.spend _ eq_refl)
    as [(_ & _ & Hc) Hiff].
  split; [exact Hc|].
  apply not_true_is_false. intros Ht. apply Hiff in Ht. discriminate Ht.
Defined.

End TransactionExamples.

(** ** chaindb/db.go *)

Module chaindb_facts.
Import badger chaindb.

Section Facts.
Context `{Engine} {Block : Type} `{BlockCodec Block}.

Lemma View_state {R : Type} db (fn : Txn -> outcome (Txn * R * option error)) :
  (View db fn).1 = db.
Proof.
  unfold View. destruct (fn _) as [[[txn r] err]|p]; reflexivity.
Qed.

(** A method that only runs [View] hands back the store it was given. *)
Ltac solve_by_View_state :=
  match goal with
  | |- context [View ?db ?fn] =>
      let Hv := fresh "Hv" in
      pose proof (View_state db fn) as Hv; destruct (View db fn); exact Hv
  end.

Lemma HasChain_state db : (HasChain db).1 = db.
Proof. unfold HasChain. solve_by_View_state. Qed.

Lemma GetLastHash_state db : (GetLastHash db).1 = db.
Proof. unfold GetLastHash. solve_by_View_state. Qed.

Lemma GetBlockWithHash_state hash db : (GetBlockWithHash hash db).1 = db.
Proof. unfold GetBlockWithHash. solve_by_View_state. Qed.

Lemma pending_union (k1 v1 k2 v2 : list byte) (db : store) :
  <[k1 := v1]> (<[k2 := v2]> (∅ : store)) ∪ db = <[k1 := v1]> (<[k2 := v2]> db).
Proof. by rewrite <- !insert_union_l, (left_id_L ∅ (∪)). Qed.

(** An append commits both writes or none. *)
Lemma SaveNewLastBlock_cases newBlock db :
  (exists b, newBlock = Some b
             /\ SaveNewLastBlock newBlock db = (appended b db, Returned tt))
  \/ (exists p, SaveNewLastBlock newBlock db = (db, Panicked p)).
Proof.
  unfold SaveNewLastBlock, Update, Set_, appended.
  destruct newBlock as [b|]; simpl; [|right; by eexists].
  destruct (Hash b) as [|c hash] eqn:Hh; simpl; [right; by eexists|].
  destruct (entry_check (c :: hash) (SerializeBlock b)); simpl;
    [right; by eexists|].
  destruct (entry_check LastHashKey (c :: hash)); simpl;
    [right; by eexists|].
  destruct (commit_check db _); simpl; [right; by eexists|].
  left. exists b. split; [done|]. by rewrite Hh, pending_union.
Qed.

Lemma tip_stored_appended b db : tip_stored (appended b db).
Proof.
  unfold tip_stored, appended. intros h.
  rewrite lookup_insert_eq. intros [= <-].
  destruct (decide (LastHashKey = Hash b)) as [Heq|Hne].
  - rewrite <- Heq at 1. rewrite lookup_insert_eq. by eexists.
  - rewrite lookup_insert_ne, lookup_insert_eq by done. by eexists.
Qed.

Lemma tip_stored_state_after o db : tip_stored db -> tip_stored (state_after o db).
Proof.
  intros Hdb. destruct o as [| |hash|newBlock]; simpl.
  - by rewrite HasChain_state.
  - by rewrite GetLastHash_state.
  - by rewrite GetBlockWithHash_state.
  - destruct (SaveNewLastBlock_cases newBlock db) as [(b & _ & ->)|[p ->]];
      simpl; [apply tip_stored_appended | done].
Qed.

Lemma tip_stored_run ops db : tip_stored db -> tip_stored (run ops db).
Proof.
  unfold run. revert db. induction ops as [|o ops IH]; intros db Hdb; simpl.
  - done.
  - by apply IH, tip_stored_state_after.
Qed.

End Facts.
End chaindb_facts.

Module chaindb_further.
Import badger chaindb chaindb_facts.

Lemma LastHashKey_nonempty : LastHashKey <> [].
Proof. discriminate. Qed.

(** A lookup in a fresh transaction reads the committed state. *)
Lemma Get_fresh (db : store) (u : bool) (key : list byte) :
  key <> [] ->
  Get (mkTxn db ∅ u) key
  = match db !! key with
    | Some v => (Some v, None)
    | None => (None, Some ErrKeyNotFound)
    end.
Proof.
  intros Hkey. unfold Get. destruct key as [|c key]; [done|].
  simpl. by rewrite lookup_empty.
Qed.

Section Facts.
Context `{Engine} {Block : Type} `{BlockCodec Block}.

Lemma HasChain_eval (db : store) :
  HasChain db
  = (db, match db !! LastHashKey with
         | Some _ => Returned true
         | None => Panicked (ErrPanic ErrKeyNotFound)
         end).
Proof.
  unfold HasChain, View. rewrite (Get_fresh db false _ LastHashKey_nonempty).
  by destruct (db !! LastHashKey).
Qed.

Lemma GetLastHash_eval (db : store) :
  GetLastHash db
  = (db, match db !! LastHashKey with
         | Some h => Returned h
         | None => Panicked (ErrPanic ErrKeyNotFound)
         end).
Proof.
  unfold GetLastHash, View. rewrite (Get_fresh db false _ LastHashKey_nonempty).
  by destruct (db !! LastHashKey).
Qed.

Lemma GetBlockWithHash_eval (db : store) (hash : list byte) :
  GetBlockWithHash hash db
  = (db, match hash with
         | [] => Panicked (ErrPanic ErrEmptyKey)
         | _ =>
             match db !! hash with
             | Some v => b ← DeserializeBlock v; Returned (Some b)
             | None => Panicked (ErrPanic ErrKeyNotFound)
             end
         end).
Proof.
  unfold GetBlockWithHash, View. destruct hash as [|c hash]; [done|].
  rewrite (Get_fresh db false (c :: hash)) by done.
  destruct (db !! (c :: hash)) as [v|]; simpl; [|done].
  by destruct (DeserializeBlock v).
Qed.

(** When an append returns, and what it leaves. *)
Lemma SaveNewLastBlock_Returned (newBlock : option Block) (db db' : store) :
  SaveNewLastBlock newBlock db = (db', Returned tt)
  <-> exists b,
        newBlock = Some b
        /\ Hash b <> []
        /\ entry_check (Hash b) (SerializeBlock b) = None
        /\ entry_check LastHashKey (Hash b) = None
        /\ commit_check db
             (<[LastHashKey := Hash b]> (<[Hash b := SerializeBlock b]> ∅))
           = None
        /\ db' = appended b db.
Proof.
  unfold SaveNewLastBlock, Update, Set_, appended.
  destruct newBlock as [b|]; simpl.
  2:{ split; [discriminate | intros (? & [=] & _)]. }
  destruct (Hash b) as [|c hash] eqn:Hh; simpl.
  { split; [discriminate | intros (? & [= <-] & Hne & _)]. congruence. }
  destruct (entry_check (c :: hash) (SerializeBlock b)) eqn:He1; simpl.
  { split; [discriminate | intros (? & [= <-] & _ & He & _)]. congruence. }
  destruct (entry_check LastHashKey (c :: hash)) eqn:He2; simpl.
  { split; [discriminate | intros (? & [= <-] & _ & _ & He & _)]. congruence. }
  destruct (commit_check db _) eqn:Hc; simpl.
  { split; [discriminate | intros (? & [= <-] & _ & _ & _ & Hc' & _)].
    rewrite Hh in Hc'. congruence. }
  rewrite pending_union. split.
  - intros [= <-]. exists b. rewrite Hh. by split_and!.
  - intros (? & [= <-] & _ & _ & _ & _ & ->). by rewrite Hh.
Qed.

Lemma lookup_appended_tip (b : Block) (db : store) :
  appended b db !! LastHashKey = Some (Hash b).
Proof. unfold appended. apply lookup_insert_eq. Qed.

Lemma lookup_appended_block (b : Block) (db : store) :
  Hash b <> LastHashKey ->
  appended b db !! Hash b = Some (SerializeBlock b).
Proof.
  intros Hne. unfold appended.
  by rewrite lookup_insert_ne, lookup_insert_eq.
Qed.

Lemma lookup_appended_other (b : Block) (db : store) (key : list byte) :
  key <> Hash b -> key <> LastHashKey ->
  appended b db !! key = db !! key.
Proof.
  intros H1 H2. unfold appended. by rewrite !lookup_insert_ne.
Qed.

(** The tip of a store built by the operations is never the empty key. *)
Lemma tip_nonempty_state_after (o : op Block) (db : store) :
  (forall h, db !! LastHashKey = Some h -> h <> []) ->
  forall h, state_after o db !! LastHashKey = Some h -> h <> [].
Proof.
  intros Hdb h. destruct o as [| |hash|newBlock]; simpl.
  - rewrite HasChain_state. apply Hdb.
  - rewrite GetLastHash_state. apply Hdb.
  - rewrite GetBlockWithHash_state. apply Hdb.
  - destruct (SaveNewLastBlock newBlock db) as [db' [[]|p]] eqn:Hs.
    + apply SaveNewLastBlock_Returned in Hs as (b & _ & Hne & _ & _ & _ & ->).
      simpl. rewrite lookup_appended_tip. by intros [= <-].
    + destruct (SaveNewLastBlock_cases newBlock db) as [(b & _ & Hr)|[p' Hr]];
        rewrite Hs in Hr; [discriminate|].
      injection Hr as -> _. apply Hdb.
Qed.

Lemma tip_nonempty_run (ops : list (op Block)) (db : store) :
  (forall h, db !! LastHashKey = Some h -> h <> []) ->
  forall h, run ops db !! LastHashKey = Some h -> h <> [].
Proof.
  unfold run. revert db. induction ops as [|o ops IH]; intros db Hdb; simpl.
  - done.
  - by apply IH, tip_nonempty_state_after.
Qed.

Lemma state_after_keeps_keys (o : op Block) (db : store) (key : list byte) :
  is_Some (db !! key) -> is_Some (state_after o db !! key).
Proof.
  intros Hkey. destruct o as [| |hash|newBlock]; simpl.
  - by rewrite HasChain_state.
  - by rewrite GetLastHash_state.
  - by rewrite GetBlockWithHash_state.
  - destruct (SaveNewLastBlock_cases newBlock db) as [(b & _ & ->)|[p ->]];
      simpl; [|done].
    unfold appended.
    destruct (decide (LastHashKey = key)) as [<-|?];
      [rewrite lookup_insert_eq; by eexists|].
    rewrite lookup_insert_ne by done.
    destruct (decide (Hash b = key)) as [<-|?];
      [rewrite lookup_insert_eq; by eexists|].
    by rewrite lookup_insert_ne.
Qed.



End Facts.
End chaindb_further.

Section ChainClaims.
Import badger chaindb chaindb_facts chaindb_further.
Context `{Engine} {Block : Type} `{BlockCodec Block}.


(** C7, as amended.  On a store without a tip, as a freshly opened one
    holding no block is, [GetLastHash] produces no hash and hands no error
    back: it panics with the engine's key-not-found error, and the store
    is left as it was. *)
Theorem GetLastHash_no_tip (db : store) :
  db !! LastHashKey = None ->
  GetLastHash db = (db, Panicked (ErrPanic ErrKeyNotFound)).
Proof.
  intros Hnone. unfold GetLastHash, View, Get. simpl.
  rewrite lookup_empty, Hnone. reflexivity.
Qed.

(** C10.  [HasChain], [GetLastHash] and [GetBlockWithHash] leave the store
    as it was: every key, the tip among them, has the same value after
    the call as before it, whether the call returns or panics. *)
Theorem reads_leave_store_unchanged db hash :
  (HasChain db).1 = db
  /\ (GetLastHash db).1 = db
  /\ (GetBlockWithHash hash db).1 = db.
Proof.
  split_and!.
  - apply HasChain_state.
  - apply GetLastHash_state.
  - apply GetBlockWithHash_state.
Qed.

End ChainClaims.

Section ChainExamples.
Import badger chaindb chaindb_facts.
Local Existing Instance sample.engine.
Local Existing Instance sample.block_codec.

(** C3, as stated, fails: for a block whose hash is the tip key, the call
    returns but the record of the block is not in the store; the second
    write has replaced it, and the only key left is the tip key, holding
    itself. *)
Lemma SaveNewLastBlock_hides_block :
  exists db',
    SaveNewLastBlock (Some sample.block_tip) ∅ = (db', Returned tt)
    /\ db' = {[ LastHashKey := LastHashKey ]}
    /\ db' !! Hash sample.block_tip <> Some (SerializeBlock sample.block_tip)
    /\ (GetBlockWithHash (Hash sample.block_tip) db').2
       <> Returned (Some sample.block_tip).
Proof.
  eexists. split; [reflexivity|]. split_and!.
  - apply map_eq. intros k.
    destruct (decide (k = LastHashKey)) as [->|Hne]; [reflexivity|].
    rewrite lookup_singleton_ne by done.
    unfold Update. simpl.
    rewrite lookup_union, !lookup_insert_ne, !lookup_empty by done.
    reflexivity.
  - vm_compute. discriminate.
  - vm_compute. discriminate.
Qed.


(** C7, as stated, fails: on the empty store [GetLastHash] terminates the
    process instead of handing a not-found error to its caller. *)
Lemma GetLastHash_empty_fatal :
  terminates_process (GetLastHash ∅).2 /\ ~ returns (GetLastHash ∅).2.
Proof.
  assert (Ht : terminates_process (GetLastHash ∅).2) by (by eexists).
  split; [exact Ht | by apply terminates_not_returns].
Qed.

Lemma GetLastHash_no_tip_witness :
  (∅ : store) !! LastHashKey = None
  /\ GetLastHash ∅ = (∅, Panicked (ErrPanic ErrKeyNotFound)).
Proof.
  split; [reflexivity|].
  apply (GetLastHash_no_tip ∅). reflexivity.
Defined.

(** With [HandleErr] as modelled, the not-found error that the callback
    of [HasChain] returns next to [exists = false] reaches [HandleErr] as
    well. *)
Remark HasChain_empty :
  HasChain ∅ = (∅, Panicked (ErrPanic ErrKeyNotFound)).
Proof. reflexivity. Qed.

(** Appending a block to the empty store, then reading it back. *)
Example append_then_read :
  let b : list byte * list byte := ([x01; x02], [x0a; x0b; x0c]) in
  let db := (SaveNewLastBlock (Some b) ∅).1 in
  (HasChain db).2 = Returned true
  /\ (GetLastHash db).2 = Returned [x01; x02]
  /\ (GetBlockWithHash [x01; x02] db).2 = Returned (Some b).
Proof. vm_compute. split_and!; reflexivity. Qed.

End ChainExamples.

(** ** The digest functions on their published test vectors *)

Example sha256_empty :
  hex.EncodeToString (sha256.digest [])
  = "e3b0c44298fc1c149afbf4c8996fb92427ae41e4649b934ca495991b7852b855"%string.
Proof. vm_compute. reflexivity. Qed.

Example sha256_abc :
  hex.EncodeToString (sha256.digest (list_byte_of_string "abc"))
  = "ba7816bf8f01cfea414140de5dae2223b00361a396177a9cb410ff61f20015ad"%string.
Proof. vm_compute. reflexivity. Qed.

Example sha256_two_blocks :
  hex.EncodeToString
    (sha256.digest
       (list_byte_of_string
          "abcdbcdecdefdefgefghfghighijhijkijkljklmklmnlmnomnopnopq"))
  = "248d6a61d20638b8e5c026930c3e6039a33ce45964ff2167f6ecedd419db06c1"%string.
Proof. vm_compute. reflexivity. Qed.

Example ripemd160_empty :
  hex.EncodeToString (ripemd160.digest [])
  = "9c1185a5c5e9fc54612808977ee8f548b2258d31"%string.
Proof. vm_compute. reflexivity. Qed.

Example ripemd160_abc :
  hex.EncodeToString (ripemd160.digest (list_byte_of_string "abc"))
  = "8eb208f7e05d987a9b044a8e98c6b087f15a0bfc"%string.
Proof. vm_compute. reflexivity. Qed.

Example ripemd160_two_blocks :
  hex.EncodeToString
    (ripemd160.digest
       (list_byte_of_string
          "abcdbcdecdefdefgefghfghighijhijkijkljklmklmnlmnomnopnopq"))
  = "12a053384a9c0c88e405a06c27dcf49ada62eb2b"%string.
Proof. vm_compute. reflexivity. Qed.

(** ** wallet/walletutil: base58 *)

Module base58_facts.
Import base58.
Local Open Scope N_scope.

Lemma number_rev b ds : number b (rev ds) = value_le b ds.
Proof.
  unfold number, value_le.
  rewrite <- (rev_involutive ds) at 2. by rewrite fold_left_rev_right.
Qed.

Lemma fuel_for_enough n : n < 2 ^ N.of_nat (fuel_for n).
Proof.
  unfold fuel_for. rewrite Nat2N.inj_succ, N2Nat.id.
  destruct (N.eq_dec n 0) as [->|Hn]; [done|].
  apply N.log2_spec. lia.
Qed.

Section Radix.
Variable b : N.
Hypothesis b_ge_2 : 2 <= b.

Lemma div_fuel f n : n < 2 ^ N.of_nat (S f) -> n / b < 2 ^ N.of_nat f.
Proof.
  rewrite Nat2N.inj_succ, N.pow_succ_r'. intros Hn.
  apply N.Div0.div_lt_upper_bound.
  eapply N.lt_le_trans; [exact Hn|]. by apply N.mul_le_mono_r.
Qed.

Lemma value_le_digits_le f n :
  n < 2 ^ N.of_nat f -> value_le b (digits_le f b n) = n.
Proof.
  revert n. induction f as [|f IH]; intros n Hn.
  - simpl in *. lia.
  - cbn [digits_le]. destruct (N.eqb_spec n 0) as [->|Hn0]; [done|].
    cbn [value_le fold_right]. fold (value_le b (digits_le f b (n / b))).
    rewrite IH by (by apply div_fuel).
    rewrite (N.div_mod' n b) at 3. lia.
Qed.

Lemma digits_le_bound f n : Forall (fun d => d < b) (digits_le f b n).
Proof.
  revert n. induction f as [|f IH]; intros n; cbn [digits_le]; [done|].
  destruct (N.eqb_spec n 0); [done|].
  constructor; [apply N.mod_lt; lia | apply IH].
Qed.

Lemma digits_le_nil f n :
  n < 2 ^ N.of_nat f -> digits_le f b n = [] -> n = 0.
Proof.
  destruct f as [|f]; simpl; [lia|].
  destruct (N.eqb_spec n 0); [done | discriminate].
Qed.

Lemma last_digits_le f n :
  n < 2 ^ N.of_nat f -> last (digits_le f b n) <> Some 0.
Proof.
  revert n. induction f as [|f IH]; intros n Hn; cbn [digits_le]; [done|].
  destruct (N.eqb_spec n 0) as [->|Hn0]; [done|].
  pose proof (div_fuel f n Hn) as Hdiv.
  destruct (digits_le f b (n / b)) as [|d ds] eqn:Hds.
  - apply digits_le_nil in Hds; [|done]. simpl. intros [= Hmod].
    pose proof (N.div_mod' n b). nia.
  - rewrite last_cons_cons. rewrite <- Hds. by apply IH.
Qed.

Lemma value_le_nonzero ds :
  ds <> [] -> last ds <> Some 0 -> value_le b ds <> 0.
Proof.
  induction ds as [|d [|d' ds] IH]; intros Hne Hlast; [done| |].
  - simpl in *. intros Hv. apply Hlast. f_equal. lia.
  - rewrite last_cons_cons in Hlast. specialize (IH ltac:(done) Hlast).
    cbn [value_le fold_right] in *. nia.
Qed.

Lemma digits_le_value_le ds f :
  Forall (fun d => d < b) ds -> last ds <> Some 0 ->
  value_le b ds < 2 ^ N.of_nat f ->
  digits_le f b (value_le b ds) = ds.
Proof.
  revert f. induction ds as [|d ds IH]; intros f Hb Hlast Hf.
  - destruct f; reflexivity.
  - pose proof (value_le_nonzero (d :: ds) ltac:(done) Hlast) as Hnz.
    apply Forall_cons in Hb as [Hd Hb].
    destruct f as [|f]; [change (2 ^ N.of_nat 0) with 1 in Hf; lia|].
    cbn [digits_le]. destruct (N.eqb_spec (value_le b (d :: ds)) 0); [done|].
    assert (Hmod : value_le b (d :: ds) mod b = d).
    { cbn [value_le fold_right]. fold (value_le b ds).
      rewrite N.add_comm, N.Div0.mod_add. apply N.mod_small. lia. }
    assert (Hdiv : value_le b (d :: ds) / b = value_le b ds).
    { cbn [value_le fold_right]. fold (value_le b ds).
      rewrite N.add_comm, N.div_add by lia. rewrite N.div_small; lia. }
    rewrite Hmod, Hdiv. f_equal. apply IH.
    + done.
    + destruct ds as [|d' ds]; [done|]. by rewrite last_cons_cons in Hlast.
    + rewrite <- Hdiv. by apply div_fuel.
Qed.

Lemma number_digits n : number b (digits b n) = n.
Proof.
  unfold digits. rewrite number_rev.
  apply value_le_digits_le, fuel_for_enough.
Qed.

Lemma digits_bound n : Forall (fun d => d < b) (digits b n).
Proof. unfold digits. apply Forall_rev, digits_le_bound. Qed.

Lemma head_rev {A} (l : list A) : head (rev l) = last l.
Proof.
  induction l as [|x l IH]; [done|]. simpl.
  destruct l as [|y l]; [done|].
  rewrite last_cons_cons, <- IH. simpl.
  by destruct (rev l).
Qed.

Lemma head_digits n : head (digits b n) <> Some 0.
Proof.
  unfold digits. rewrite head_rev.
  apply last_digits_le, fuel_for_enough.
Qed.

Lemma digits_number ds :
  Forall (fun d => d < b) ds -> head ds <> Some 0 ->
  digits b (number b ds) = ds.
Proof.
  intros Hb Hhd. unfold digits.
  assert (Hn : number b ds = value_le b (rev ds))
    by (by rewrite <- number_rev, rev_involutive).
  rewrite Hn, digits_le_value_le; [apply rev_involutive | | |].
  - by apply Forall_rev.
  - by rewrite <- head_rev, rev_involutive.
  - apply fuel_for_enough.
Qed.

Lemma number_leading_zeros k ds :
  number b (replicate k 0 ++ ds) = number b ds.
Proof. induction k as [|k IH]; [done|]. exact IH. Qed.

End Radix.

Lemma leading_zeros_split ds :
  ds = replicate (leading_zeros ds) 0 ++ drop (leading_zeros ds) ds
  /\ head (drop (leading_zeros ds) ds) <> Some 0.
Proof.
  induction ds as [|d ds [IH1 IH2]]; [done|].
  destruct d as [|p]; simpl.
  - split; [by f_equal | done].
  - split; [done | discriminate].
Qed.

Lemma leading_zeros_replicate k ds :
  head ds <> Some 0 -> leading_zeros (replicate k 0 ++ ds) = k.
Proof.
  intros Hhd. induction k as [|k IH]; simpl; [|by f_equal].
  destruct ds as [|[|p] ds]; done.
Qed.

End base58_facts.

Section Symbols.
Import base58 base58_facts.
Local Open Scope N_scope.

Lemma index_symbol d : d < 58 -> index (symbol d) = Some d.
Proof.
  intros Hd.
  assert (Hall : Forall (fun d => index (symbol d) = Some d)
                        (N.of_nat <$> seq 0 58)).
  { apply (bool_decide_unpack (Forall (fun d => index (symbol d) = Some d)
                                      (N.of_nat <$> seq 0 58))).
    vm_compute. exact I. }
  rewrite Forall_forall in Hall. apply Hall.
  apply list_elem_of_fmap. exists (N.to_nat d). split; [lia|].
  apply elem_of_seq. lia.
Qed.

Lemma byte_of_to_N c : byte_of_N (Byte.to_N c) = c.
Proof.
  unfold byte_of_N. pose proof (Byte.to_N_bounded c).
  rewrite N.mod_small by lia. by rewrite Byte.of_to_N.
Qed.

(** The model of the codec round-trips: decoding an encoding gives the
    bytes back, leading zeros included. *)
Lemma Decode_Encode input : Decode (Encode input) = Returned input.
Proof.
  unfold Decode, Encode.
  set (ns := Byte.to_N <$> input).
  destruct (leading_zeros_split ns) as [Hsplit Hhd].
  remember (leading_zeros ns) as z eqn:Hz.
  remember (drop z ns) as rest eqn:Hr. clear Hz Hr.
  assert (Hns : Forall (fun d => d < 256) ns).
  { apply Forall_fmap, Forall_true. intros c. simpl.
    pose proof (Byte.to_N_bounded c). lia. }
  assert (Hrest : Forall (fun d => d < 256) rest).
  { rewrite Hsplit in Hns. by apply Forall_app in Hns as [_ ?]. }
  set (n := number 256 ns).
  rewrite <- fmap_replicate, <- fmap_app.
  rewrite mapM_fmap_Forall_Some.
  2:{ apply Forall_app. split.
      - apply Forall_replicate. by apply index_symbol.
      - eapply Forall_impl; [apply (digits_bound 58); lia|].
        intros d Hd. by apply index_symbol. }
  rewrite leading_zeros_replicate by (apply head_digits; lia).
  rewrite number_leading_zeros, number_digits by lia.
  assert (Hn : n = number 256 rest).
  { unfold n. rewrite Hsplit. apply number_leading_zeros. }
  rewrite Hn, digits_number by (done || lia).
  f_equal. change x00 with (byte_of_N 0).
  rewrite <- fmap_replicate, <- fmap_app, <- Hsplit. unfold ns.
  rewrite <- list_fmap_compose.
  rewrite <- (list_fmap_id input) at 2.
  apply list_fmap_ext. intros _ c _. apply byte_of_to_N.
Qed.

End Symbols.

(** ** wallet/wallet.go *)

Lemma bytes_Compare_refl a : bytes_Compare a a = 0.
Proof.
  induction a as [|x a IH]; [done|]. simpl. by rewrite N.compare_refl.
Qed.

Lemma bytes_Compare_eq a b : bytes_Compare a b = 0 <-> a = b.
Proof.
  split; [|intros ->; apply bytes_Compare_refl].
  revert b. induction a as [|x a IH]; intros [|y b]; simpl; try done.
  destruct (N.compare_spec (Byte.to_N x) (Byte.to_N y)) as [Heq| |]; try done.
  intros Hab. f_equal; [|by apply IH].
  apply (f_equal Byte.of_N) in Heq. rewrite !Byte.of_to_N in Heq. congruence.
Qed.

Lemma slice_from_app a c :
  slice_from (a ++ c) (Z.of_nat (length (a ++ c)) - Z.of_nat (length c))
  = Returned c.
Proof.
  unfold slice_from, slice. rewrite length_app.
  replace (Z.of_nat (length a + length c) - Z.of_nat (length c))
    with (Z.of_nat (length a)) by lia.
  rewrite Nat2Z.id.
  replace (Z.of_nat (length a + length c) - Z.of_nat (length a))
    with (Z.of_nat (length c)) by lia.
  rewrite Nat2Z.id, drop_app_length, firstn_all.
  destruct (Z.leb_spec 0 (Z.of_nat (length a))); [|lia].
  destruct (Z.leb_spec (Z.of_nat (length a)) (Z.of_nat (length a + length c)));
    [|lia].
  destruct (Z.leb_spec (Z.of_nat (length a + length c))
              (Z.of_nat (length a + length c))); [done|lia].
Qed.

Lemma slice_to_app a c :
  slice (a ++ c) 0 (Z.of_nat (length (a ++ c)) - Z.of_nat (length c))
  = Returned a.
Proof.
  unfold slice. rewrite length_app.
  replace (Z.of_nat (length a + length c) - Z.of_nat (length c))
    with (Z.of_nat (length a)) by lia.
  rewrite Z.sub_0_r, Nat2Z.id. change (Z.to_nat 0) with 0%nat.
  rewrite drop_0, take_app_length.
  destruct (Z.leb_spec 0 (Z.of_nat (length a))); [|lia].
  destruct (Z.leb_spec (Z.of_nat (length a)) (Z.of_nat (length a + length c)));
    [done|lia].
Qed.

(** A slice that starts before the beginning of its operand panics. *)
Lemma slice_from_negative s lo :
  lo < 0 -> slice_from s lo = Panicked (RuntimePanic SliceBoundsOutOfRange).
Proof.
  intros Hlo. unfold slice_from, slice.
  destruct (Z.leb_spec 0 lo); [lia | done].
Qed.

Module wallet_facts.
Import wallet.

Section Facts.
Context `{Sha256} `{Ripemd160} `{Base58}.

Lemma length_checksum payload : length (checksum payload) = 4%nat.
Proof.
  unfold checksum. rewrite length_take, elems_length. reflexivity.
Qed.

Lemma length_HashPubKey pubKey : length (HashPubKey pubKey) = 20%nat.
Proof. unfold HashPubKey. apply elems_length. Qed.

(** [ValidateAddress] recomputes the checksum of everything but the last
    four bytes of what the address decodes to. *)
Lemma ValidateAddress_decoded address payload sum :
  Base58Decode (list_byte_of_string address) = Returned (payload ++ sum) ->
  length sum = 4%nat ->
  ValidateAddress address = Returned (bool_decide (sum = checksum payload)).
Proof.
  intros Hdec Hlen. unfold ValidateAddress. rewrite Hdec. simpl.
  unfold ChecksumLen. change 4 with (Z.of_nat 4). rewrite <- Hlen.
  rewrite slice_from_app, slice_to_app. simpl. f_equal.
  case_bool_decide as Heq.
  - apply Z.eqb_eq. by apply bytes_Compare_eq.
  - apply Z.eqb_neq. by rewrite bytes_Compare_eq.
Qed.

(** Fewer than four decoded bytes: the checksum cannot be sliced off. *)
Lemma ValidateAddress_short address decoded :
  Base58Decode (list_byte_of_string address) = Returned decoded ->
  (length decoded < 4)%nat ->
  ValidateAddress address = Panicked (RuntimePanic SliceBoundsOutOfRange).
Proof.
  intros Hdec Hlen. unfold ValidateAddress. rewrite Hdec. simpl.
  rewrite slice_from_negative; [done | unfold ChecksumLen; lia].
Qed.

End Facts.
End wallet_facts.

Section AddressClaims.
Import wallet wallet_facts.
Context `{Sha256} `{Ripemd160} `{Base58}.

(** C5 fails on the code.  Whenever an address decodes to fewer than four
    bytes, [ValidateAddress] does not answer false: slicing off the
    checksum panics with a slice-bounds run-time error. *)
Theorem ValidateAddress_too_short address decoded :
  Base58Decode (list_byte_of_string address) = Returned decoded ->
  (length decoded < 4)%nat ->
  ValidateAddress address = Panicked (RuntimePanic SliceBoundsOutOfRange)
  /\ ValidateAddress address <> Returned false.
Proof.
  intros Hdec Hlen.
  rewrite (ValidateAddress_short address decoded Hdec Hlen). by split.
Qed.

(** C6.  With a base58 codec whose decoder inverts its encoder, the
    address of every wallet validates: [GetAddress] encodes the version
    byte, then the 20-byte hash of the public key, then the 4-byte
    checksum of the two, and [ValidateAddress] returns true on it. *)
Theorem ValidateAddress_GetAddress w :
  (forall bs, Base58Decode (Base58Encode bs) = Returned bs) ->
  GetAddress w
  = Base58Encode (([version] ++ HashPubKey (PublicKey w))
                  ++ checksum ([version] ++ HashPubKey (PublicKey w)))
  /\ length (HashPubKey (PublicKey w)) = 20%nat
  /\ length (checksum ([version] ++ HashPubKey (PublicKey w))) = 4%nat
  /\ ValidateAddress (string_of_list_byte (GetAddress w)) = Returned true.
Proof.
  intros Hcodec. split_and!.
  - reflexivity.
  - apply length_HashPubKey.
  - apply length_checksum.
  - erewrite ValidateAddress_decoded.
    + by rewrite bool_decide_eq_true_2.
    + rewrite list_byte_of_string_of_list_byte. apply Hcodec.
    + apply length_checksum.
Qed.

End AddressClaims.

Section AddressExamples.
Import wallet.
Local Existing Instance sha256.Sum256.
Local Existing Instance ripemd160.Sum.
Local Existing Instance base58.codec.

Example Base58Encode_text :
  string_of_list_byte (Base58Encode (list_byte_of_string "Hello World!"))
  = "2NEpo7TZRRrLZSi2U"%string.
Proof. vm_compute. reflexivity. Qed.

(** The address of the empty public key, and of the all-zero key hash. *)
Example GetAddress_empty_key :
  string_of_list_byte (GetAddress (mkWallet (mk_ecdsa_PrivateKey 0 0 0) []))
  = "1HT7xU2Ngenf7D4yocz2SAcnNLW7rK8d4E"%string.
Proof. vm_compute. reflexivity. Qed.

Example ValidateAddress_zero_hash :
  ValidateAddress "1111111111111111111114oLvT2" = Returned true
  /\ GetPubKeyHashFromAddress "1111111111111111111114oLvT2"
     = Returned (replicate 20 x00).
Proof. vm_compute. split; reflexivity. Qed.

(** A changed last symbol is rejected; four decoded bytes are enough for
    an answer, three are not. *)
Example ValidateAddress_rejects :
  ValidateAddress "1HT7xU2Ngenf7D4yocz2SAcnNLW7rK8d4F" = Returned false
  /\ ValidateAddress "1111" = Returned false
  /\ ValidateAddress "111" = Panicked (RuntimePanic SliceBoundsOutOfRange).
Proof. vm_compute. split_and!; reflexivity. Qed.

Lemma ValidateAddress_too_short_witness :
  Base58Decode (list_byte_of_string "1") = Returned [x00]
  /\ ValidateAddress "1" = Panicked (RuntimePanic SliceBoundsOutOfRange)
  /\ ValidateAddress "1" <> Returned false.
Proof.
  split; [reflexivity|].
  apply (ValidateAddress_too_short "1" [x00]); [reflexivity | simpl; lia].
Defined.

Lemma ValidateAddress_GetAddress_witness :
  (forall bs, Base58Decode (Base58Encode bs) = Returned bs)
  /\ ValidateAddress
       (string_of_list_byte
          (GetAddress (mkWallet (mk_ecdsa_PrivateKey 0 0 0) [x04])))
     = Returned true.
Proof.
  split; [exact Decode_Encode|].
  apply (ValidateAddress_GetAddress
           (mkWallet (mk_ecdsa_PrivateKey 0 0 0) [x04])).
  exact Decode_Encode.
Defined.

End AddressExamples.

(** ** wallet/wallets.go *)

Section WalletsClaims.
Import wallet wallets.
Context `{Gob}.

(** C8, as amended.  For every wallet collection and every address that
    is not a key of it, [GetWallet] returns no [Wallet] to its caller, so
    in particular no default or zero value. *)
Theorem GetWallet_absent ws address :
  Wallets_map ws !! address = None ->
  forall w, GetWallet ws address <> Returned w.
Proof. intros Hnone w. unfold GetWallet. rewrite Hnone. discriminate. Qed.

(** C9, as amended.  When the snapshot file does not exist, [InitWallets]
    returns the empty collection together with the not-exist error of the
    file status check: a non-nil error is reported.  That is the only
    error [InitWallets] ever returns; a failure to read or to decode a
    snapshot is not handed back to the caller. *)
Theorem InitWallets_missing_file disk :
  (os_IsNotExist (os_Stat disk) = true ->
   InitWallets disk = Returned (mkWallets ∅, Some ErrNotExist))
  /\ (forall ws err,
        InitWallets disk = Returned (ws, Some err) ->
        os_IsNotExist (os_Stat disk) = true /\ err = ErrNotExist /\ ws = mkWallets ∅).
Proof.
  unfold InitWallets, LoadFromFile.
  destruct (os_Stat disk) as [[]|] eqn:Hstat; simpl;
    try (split; [discriminate|]);
    try (destruct (ioutil_ReadFile disk) as [data [e|]]; simpl;
         [intros ? ?; discriminate|];
         destruct (gob_Decode data) as [wallets [e|]]; simpl;
         intros ? ?; discriminate).
  split; [done|]. by intros ws err [= <- <-].
Qed.

End WalletsClaims.

Section WalletsExamples.
Import wallet wallets.
Local Existing Instance sample.gob.

(** C8, as stated, fails: looking up an unknown address crashes on the
    nil pointer found in the map; nothing is returned to the caller. *)
Lemma GetWallet_absent_crashes :
  GetWallet (mkWallets ∅) "A1" = Panicked (RuntimePanic NilDereference)
  /\ terminates_process (GetWallet (mkWallets ∅) "A1").
Proof. split; [reflexivity | by eexists]. Qed.

Lemma GetWallet_absent_witness :
  Wallets_map (mkWallets ∅) !! "A1"%string = None
  /\ forall w, GetWallet (mkWallets ∅) "A1" <> Returned w.
Proof.
  split; [reflexivity|].
  apply (GetWallet_absent (mkWallets ∅) "A1"). reflexivity.
Defined.

(** C9, as stated, fails: with the snapshot file missing, [InitWallets]
    reports an error to its caller. *)
Lemma InitWallets_missing_file_reports_error :
  InitWallets (mkDisk (Some ErrNotExist) ([], Some ErrNotExist))
  = Returned (mkWallets ∅, Some ErrNotExist)
  /\ InitWallets (mkDisk (Some ErrNotExist) ([], Some ErrNotExist))
     <> Returned (mkWallets ∅, None).
Proof. split; [reflexivity | discriminate]. Qed.

Lemma InitWallets_missing_file_witness :
  os_IsNotExist (os_Stat (mkDisk (Some ErrNotExist) ([], Some ErrNotExist))) = true
  /\ InitWallets (mkDisk (Some ErrNotExist) ([], Some ErrNotExist))
     = Returned (mkWallets ∅, Some ErrNotExist).
Proof.
  split; [reflexivity|].
  apply (InitWallets_missing_file (mkDisk (Some ErrNotExist) ([], Some ErrNotExist))).
  reflexivity.
Defined.

End WalletsExamples.

(* ===================================================================== *)
(** * Part III: further properties of the sources                        *)
(* ===================================================================== *)

(** ** core/types/transaction.go *)

Lemma hex_Decode_error src :
  (forall e, (hex.Decode src).2 = Some e -> hex.error_of_Decode e)
  /\ (forall p e, (hex.Decode (p :: src)).2 = Some e -> hex.error_of_Decode e).
Proof.
  induction src as [|q rest [IH1 IH2]].
  - split; [discriminate|]. intros p e. simpl.
    destruct (hex.fromHexChar p); intros [= <-]; [by left | right; by eexists].
  - split; [apply IH2|]. intros p e. simpl.
    destruct (hex.fromHexChar p); [|intros [= <-]; right; by eexists].
    destruct (hex.fromHexChar q); [|intros [= <-]; right; by eexists].
    destruct (hex.Decode rest) as [out err] eqn:Hrest. simpl.
    apply IH1.
Qed.

Section TransactionFurther.
Import types types_facts.
Context `{Sha256} `{Serializer}.

Lemma collectInputs_Panicked newInputs from utxos :
  Exists (fun kv => ~ hex_ok kv.1) utxos ->
  exists e, collectInputs newInputs from utxos = Panicked (ErrPanic e)
            /\ hex.error_of_Decode e.
Proof.
  revert newInputs. induction utxos as [|[txID idxs] rest IH]; intros acc Hbad.
  - by apply Exists_nil in Hbad.
  - simpl. pose proof (proj1 (hex_Decode_error (list_byte_of_string txID))) as Herr.
    unfold hex_ok, hex.DecodeString in *.
    destruct (hex.Decode (list_byte_of_string txID)) as [bs [e|]] eqn:Hdec; simpl.
    + exists e. split; [done | by apply Herr].
    + apply Exists_cons in Hbad as [Hbad|Hbad].
      * simpl in Hbad. unfold hex.DecodeString in Hbad. rewrite Hdec in Hbad. done.
      * by apply IH.
Qed.

(** X1.  A transaction that [CreateTransaction] returns has one input per
    supplied reference, in visiting order and nothing else: each input
    carries the decoded id and the index of a pair that the caller
    listed, and [from] as its unlock data, so that [CanUnlock] accepts
    [from] on every input. *)
Theorem CreateTransaction_inputs from to amount txoSum utxos tx :
  CreateTransaction from to amount txoSum utxos = Returned tx ->
  Inputs tx = input_for from <$> references utxos
  /\ length (Inputs tx) = length (references utxos)
  /\ Forall (fun txin => CanUnlock txin from = true) (Inputs tx)
  /\ Forall (fun txin =>
               exists txID utxoIdxs,
                 In (txID, utxoIdxs) utxos
                 /\ In (OutputIndex txin) utxoIdxs
                 /\ hex.DecodeString txID = (TxID txin, None))
            (Inputs tx).
Proof.
  intros Htx. apply CreateTransaction_Returned in Htx as (_ & Hok & ->).
  rewrite Inputs_initTransaction. split_and!.
  - reflexivity.
  - apply length_fmap.
  - apply Forall_fmap, Forall_true. intros r. simpl.
    unfold CanUnlock. simpl. by apply bool_decide_eq_true_2.
  - apply Forall_fmap, Forall_forall. intros [k i] Hr. simpl.
    unfold references in Hr.
    apply list_elem_of_In, in_flat_map in Hr as ([k' idxs] & Hkv & Hr).
    apply (proj2 (list_elem_of_In _ _)), list_elem_of_fmap in Hr
      as (j & [= -> ->] & Hj).
    exists k', idxs. split_and!; [done | by apply list_elem_of_In |].
    rewrite Forall_forall in Hok.
    specialize (Hok _ (proj2 (list_elem_of_In _ _) Hkv)).
    unfold hex_ok in Hok. simpl in Hok.
    destruct (hex.DecodeString k') as [bs e]. simpl in *. by subst.
Qed.

(** X2.  With sufficient funds but a transaction id among the keys that
    is not well-formed hexadecimal, [CreateTransaction] produces no
    transaction: it panics with the error of [hex.DecodeString], an odd
    length or an invalid digit. *)
Theorem CreateTransaction_bad_txid from to amount txoSum utxos :
  amount <= txoSum ->
  Exists (fun kv => ~ hex_ok kv.1) utxos ->
  exists e,
    CreateTransaction from to amount txoSum utxos = Panicked (ErrPanic e)
    /\ (e = ErrLength \/ exists b, e = InvalidByteError b).
Proof.
  intros Hle Hbad. unfold CreateTransaction.
  destruct (Z.ltb_spec txoSum amount) as [|_]; [lia|]. simpl.
  destruct (collectInputs_Panicked [] from utxos Hbad) as (e & -> & He).
  by exists e.
Qed.

(** X3.  The outputs of a returned transaction are locked to the two
    parties only: [CanBeUnlocked] accepts a key on some output exactly
    when the key is [to], or is [from] and there is change. *)
Theorem CreateTransaction_outputs_locked from to amount txoSum utxos tx key :
  CreateTransaction from to amount txoSum utxos = Returned tx ->
  Exists (fun txout => CanBeUnlocked txout key = true) (Outputs tx)
  <-> key = to \/ (key = from /\ amount < txoSum).
Proof.
  intros Htx. apply CreateTransaction_Returned in Htx as (_ & _ & ->).
  rewrite Outputs_initTransaction. unfold CanBeUnlocked.
  destruct (decide (amount < txoSum)) as [Hlt|Hnlt].
  - rewrite !Exists_cons, Exists_nil. simpl.
    rewrite !bool_decide_eq_true. intuition congruence.
  - rewrite Exists_cons, Exists_nil. simpl.
    rewrite bool_decide_eq_true. intuition congruence.
Qed.

End TransactionFurther.

Section TransactionFurtherExamples.
Import types types_facts.
Local Existing Instance sha256.Sum256.
Local Existing Instance sample.serializer.

Lemma CreateTransaction_inputs_witness :
  exists tx,
    CreateTransaction "A1" "A2" 40 100 [("abcd"%string, [0; 2]); ("ef"%string, [1])]
    = Returned tx
    /\ Inputs tx = [mkTxInput [xab; xcd] 0 "A1"; mkTxInput [xab; xcd] 2 "A1";
                    mkTxInput [xef] 1 "A1"].
Proof.
  eexists. split; [reflexivity|].
  apply (CreateTransaction_inputs "A1" "A2" 40 100
           [("abcd"%string, [0; 2]); ("ef"%string, [1])] _ eq_refl).
Defined.

Lemma CreateTransaction_bad_txid_witness :
  CreateTransaction "A1" "A2" 40 100 [("abcd"%string, [0]); ("xyz"%string, [1])]
  = Panicked (ErrPanic (InvalidByteError "x")).
Proof.
  destruct (CreateTransaction_bad_txid "A1" "A2" 40 100
              [("abcd"%string, [0]); ("xyz"%string, [1])]) as (e & He & _).
  - lia.
  - apply Exists_cons_tl, Exists_cons_hd. simpl. unfold hex_ok. discriminate.
  - reflexivity.
Defined.

Lemma CreateTransaction_outputs_locked_witness :
  exists tx,
    CreateTransaction "A1" "A2" 40 100 sample.spend = Returned tx
    /\ Exists (fun txout => CanBeUnlocked txout "A1" = true) (Outputs tx)
    /\ ~ Exists (fun txout => CanBeUnlocked txout "A3" = true) (Outputs tx).
Proof.
  eexists. split; [reflexivity|].
  pose proof (fun key => CreateTransaction_outputs_locked
                "A1" "A2" 40 100 sample.spend _ key eq_refl) as Hlock.
  split.
  - apply Hlock. right. split; [reflexivity | lia].
  - intros Hex. apply Hlock in Hex as [Heq|[Heq _]]; discriminate.
Defined.

End TransactionFurtherExamples.

(** ** wallet/wallet.go *)

Lemma slice_in_bounds s lo hi :
  0 <= lo -> lo <= hi -> hi <= Z.of_nat (length s) ->
  slice s lo hi = Returned (take (Z.to_nat (hi - lo)) (drop (Z.to_nat lo) s)).
Proof.
  intros H0 H1 H2. unfold slice.
  destruct (Z.leb_spec 0 lo); [|lia].
  destruct (Z.leb_spec lo hi); [|lia].
  destruct (Z.leb_spec hi (Z.of_nat (length s))); [done|lia].
Qed.

Lemma slice_out_of_bounds s lo hi :
  lo < 0 \/ hi < lo \/ Z.of_nat (length s) < hi ->
  slice s lo hi = Panicked (RuntimePanic SliceBoundsOutOfRange).
Proof.
  intros Hbad. unfold slice.
  destruct (Z.leb_spec 0 lo); [|done].
  destruct (Z.leb_spec lo hi); [|done].
  destruct (Z.leb_spec hi (Z.of_nat (length s))); [lia|done].
Qed.

Module big_facts.
Import base58 base58_facts.
Local Open Scope N_scope.

Section Radix.
Variable b : N.
Hypothesis b_ge_2 : 2 <= b.

Lemma value_le_upper ds :
  Forall (fun d => d < b) ds -> value_le b ds < b ^ N.of_nat (length ds).
Proof.
  induction 1 as [|d ds Hd Hds IH]; [done|].
  cbn [value_le fold_right length]. fold (value_le b ds).
  rewrite Nat2N.inj_succ, N.pow_succ_r'. nia.
Qed.

Lemma value_le_lower ds :
  ds <> [] -> last ds <> Some 0 ->
  b ^ N.of_nat (length ds - 1) <= value_le b ds.
Proof.
  induction ds as [|d [|d' ds] IH]; intros Hne Hlast; [done| |].
  - simpl in *. assert (d <> 0) by congruence. lia.
  - rewrite last_cons_cons in Hlast. specialize (IH ltac:(done) Hlast).
    cbn [value_le fold_right] in *. fold (value_le b ds) in *.
    replace (length (d :: d' :: ds) - 1)%nat with (S (length (d' :: ds) - 1))
      by (simpl; lia).
    rewrite Nat2N.inj_succ, N.pow_succ_r'. nia.
Qed.

(** A number below [b ^ k] has at most [k] digits. *)
Lemma length_digits n k : n < b ^ N.of_nat k -> (length (digits b n) <= k)%nat.
Proof.
  intros Hn. unfold digits. rewrite length_rev.
  pose proof (value_le_digits_le b b_ge_2 _ n (fuel_for_enough n)) as Hval.
  pose proof (last_digits_le b b_ge_2 _ n (fuel_for_enough n)) as Hlast.
  destruct (digits_le (fuel_for n) b n) as [|d ds] eqn:Hds; [simpl; lia|].
  pose proof (value_le_lower (d :: ds) ltac:(done) Hlast) as Hlow.
  rewrite Hval in Hlow.
  assert (Hlt : b ^ N.of_nat (length (d :: ds) - 1) < b ^ N.of_nat k) by lia.
  apply N.pow_lt_mono_r_iff in Hlt; [|lia]. simpl in *. lia.
Qed.

End Radix.

Lemma length_Bytes (x : Z) (k : nat) :
  (Z.abs x < 256 ^ Z.of_nat k)%Z -> (length (big.Bytes x) <= k)%nat.
Proof.
  intros Hx. unfold big.Bytes. rewrite length_fmap.
  apply length_digits; [lia|].
  apply N2Z.inj_lt. rewrite N2Z.inj_pow, Z2N.id, nat_N_Z by lia. exact Hx.
Qed.

End big_facts.

Section WalletFurther.
Import wallet wallet_keys wallet_facts.
Context `{Sha256} `{Ripemd160} `{Base58}.

Lemma ValidateAddress_long address decoded :
  Base58Decode (list_byte_of_string address) = Returned decoded ->
  (4 <= length decoded)%nat ->
  ValidateAddress address
  = Returned (bool_decide (drop (length decoded - 4) decoded
                           = checksum (take (length decoded - 4) decoded))).
Proof.
  intros Hdec Hlen.
  apply ValidateAddress_decoded; [by rewrite take_drop|].
  rewrite length_drop. lia.
Qed.

(** X4.  [ValidateAddress] answers exactly when the decoder returns at
    least four bytes; when the decoder panics, or returns fewer, the call
    does not return. *)
Theorem ValidateAddress_returns_iff address :
  returns (ValidateAddress address)
  <-> exists decoded,
        Base58Decode (list_byte_of_string address) = Returned decoded
        /\ (4 <= length decoded)%nat.
Proof.
  split.
  - intros [v Hv].
    destruct (Base58Decode (list_byte_of_string address)) as [d|p] eqn:Hdec.
    + exists d. split; [done|].
      destruct (decide (length d < 4)%nat) as [Hshort|]; [|lia].
      rewrite (ValidateAddress_short address d Hdec Hshort) in Hv. discriminate.
    + unfold ValidateAddress in Hv. rewrite Hdec in Hv. discriminate.
  - intros (d & Hdec & Hlen). eexists. by apply ValidateAddress_long.
Qed.

(** X5.  On an address that decodes to at least four bytes,
    [ValidateAddress] returns true exactly when the last four bytes are
    the checksum of the bytes before them, and false otherwise. *)
Theorem ValidateAddress_true_iff address decoded :
  Base58Decode (list_byte_of_string address) = Returned decoded ->
  (4 <= length decoded)%nat ->
  (ValidateAddress address = Returned true
   <-> drop (length decoded - 4) decoded
       = checksum (take (length decoded - 4) decoded))
  /\ (ValidateAddress address = Returned false
      <-> drop (length decoded - 4) decoded
          <> checksum (take (length decoded - 4) decoded)).
Proof.
  intros Hdec Hlen. rewrite (ValidateAddress_long address decoded Hdec Hlen).
  case_bool_decide; split; split; try done; intros [=].
Qed.

(** X6.  With a base58 codec whose decoder inverts its encoder, the
    address of a wallet decodes to 25 bytes that start with the version
    byte, and [GetPubKeyHashFromAddress] gives back the hash of the
    wallet's public key. *)
Theorem GetPubKeyHashFromAddress_GetAddress w :
  (forall bs, Base58Decode (Base58Encode bs) = Returned bs) ->
  (exists decoded,
     Base58Decode (GetAddress w) = Returned decoded
     /\ length decoded = 25%nat /\ head decoded = Some version)
  /\ GetPubKeyHashFromAddress (string_of_list_byte (GetAddress w))
     = Returned (HashPubKey (PublicKey w)).
Proof.
  intros Hcodec. unfold GetAddress. split.
  - eexists. split; [apply Hcodec|]. split; [|reflexivity].
    rewrite !length_app, length_checksum, length_HashPubKey. reflexivity.
  - unfold GetPubKeyHashFromAddress.
    rewrite list_byte_of_string_of_list_byte, Hcodec. simpl.
    rewrite slice_in_bounds.
    + rewrite length_app, length_checksum, length_HashPubKey. simpl.
      change (Z.to_nat (Z.of_nat 25 - ChecksumLen - 1)) with 20%nat.
      rewrite drop_0, take_app_length'; [done | by rewrite length_HashPubKey].
    + lia.
    + rewrite length_app, length_checksum, length_HashPubKey.
      unfold ChecksumLen. lia.
    + cbn [length]. unfold ChecksumLen. lia.
Qed.

(** X7.  [GetPubKeyHashFromAddress] needs five decoded bytes: with five or
    more it returns what lies between the first byte and the last four,
    with fewer it panics on the slice bounds.  Four decoded bytes are
    enough for [ValidateAddress] to answer, but not for this function. *)
Theorem GetPubKeyHashFromAddress_bounds address decoded :
  Base58Decode (list_byte_of_string address) = Returned decoded ->
  ((5 <= length decoded)%nat ->
   GetPubKeyHashFromAddress address
   = Returned (take (length decoded - 5) (drop 1 decoded)))
  /\ ((length decoded < 5)%nat ->
      GetPubKeyHashFromAddress address
      = Panicked (RuntimePanic SliceBoundsOutOfRange))
  /\ (length decoded = 4%nat ->
      returns (ValidateAddress address)
      /\ ~ returns (GetPubKeyHashFromAddress address)).
Proof.
  intros Hdec.
  assert (Hshort : (length decoded < 5)%nat ->
                   GetPubKeyHashFromAddress address
                   = Panicked (RuntimePanic SliceBoundsOutOfRange)).
  { intros Hlen. unfold GetPubKeyHashFromAddress. rewrite Hdec. simpl.
    apply slice_out_of_bounds. unfold ChecksumLen. lia. }
  split_and!.
  - intros Hlen. unfold GetPubKeyHashFromAddress. rewrite Hdec. simpl.
    rewrite slice_in_bounds by (unfold ChecksumLen; lia).
    do 2 f_equal. unfold ChecksumLen. lia.
  - exact Hshort.
  - intros Hlen. split.
    + eexists. apply (ValidateAddress_long address decoded Hdec). lia.
    + rewrite Hshort by lia. intros [v Hv]. discriminate.
Qed.

(** X8.  From a generated key with coordinates below 2^256,
    [createKeyPair] returns that key and a public key of at most 64
    bytes; the coordinates are not padded, so the public key is shorter
    than 64 bytes when X is below 2^248.  A generator error is not
    returned: it panics. *)
Theorem createKeyPair_public_key privKey :
  0 <= X privKey < 2 ^ 256 -> 0 <= Y privKey < 2 ^ 256 ->
  (exists pubKey,
     createKeyPair (Some privKey, None) = Returned (privKey, pubKey)
     /\ pubKey = big.Bytes (X privKey) ++ big.Bytes (Y privKey)
     /\ (length pubKey <= 64)%nat
     /\ (X privKey < 2 ^ 248 -> (length pubKey < 64)%nat))
  /\ (forall key e, createKeyPair (key, Some e) = Panicked (ErrPanic e)).
Proof.
  intros HX HY. split; [|done].
  eexists. split; [reflexivity|]. split; [reflexivity|].
  pose proof (big_facts.length_Bytes (X privKey) 32) as HX32.
  pose proof (big_facts.length_Bytes (Y privKey) 32) as HY32.
  pose proof (big_facts.length_Bytes (X privKey) 31) as HX31.
  change (256 ^ Z.of_nat 32) with (2 ^ 256) in *.
  change (256 ^ Z.of_nat 31) with (2 ^ 248) in *.
  rewrite length_app. split; [|intros Hsmall]; lia.
Qed.

End WalletFurther.

Section WalletFurtherExamples.
Import wallet wallet_keys.
Local Existing Instance sha256.Sum256.
Local Existing Instance ripemd160.Sum.
Local Existing Instance base58.codec.

Lemma ValidateAddress_true_iff_witness :
  ValidateAddress "1111111111111111111114oLvT2" = Returned true
  /\ ValidateAddress "1111111111111111111114oLvT3" = Returned false.
Proof.
  split.
  - apply (ValidateAddress_true_iff "1111111111111111111114oLvT2"
             (replicate 21 x00 ++ [x94; xa0; x09; x11]));
      [reflexivity | simpl; lia | vm_compute; reflexivity].
  - apply (ValidateAddress_true_iff "1111111111111111111114oLvT3"
             (replicate 21 x00 ++ [x94; xa0; x09; x12]));
      [reflexivity | simpl; lia | vm_compute; discriminate].
Defined.

Lemma GetPubKeyHashFromAddress_GetAddress_witness :
  (forall bs, Base58Decode (Base58Encode bs) = Returned bs)
  /\ GetPubKeyHashFromAddress
       (string_of_list_byte
          (GetAddress (mkWallet (mk_ecdsa_PrivateKey 0 0 0) [])))
     = Returned (HashPubKey []).
Proof.
  split; [exact Decode_Encode|].
  apply (GetPubKeyHashFromAddress_GetAddress
           (mkWallet (mk_ecdsa_PrivateKey 0 0 0) [])).
  exact Decode_Encode.
Defined.

Lemma GetPubKeyHashFromAddress_bounds_witness :
  GetPubKeyHashFromAddress "1111"
  = Panicked (RuntimePanic SliceBoundsOutOfRange)
  /\ returns (ValidateAddress "1111")
  /\ GetPubKeyHashFromAddress "11111" = Returned [].
Proof.
  split_and!.
  - apply (GetPubKeyHashFromAddress_bounds "1111" (replicate 4 x00));
      [reflexivity | simpl; lia].
  - apply (GetPubKeyHashFromAddress_bounds "1111" (replicate 4 x00));
      reflexivity.
  - apply (GetPubKeyHashFromAddress_bounds "11111" (replicate 5 x00));
      [reflexivity | simpl; lia].
Defined.

Lemma createKeyPair_public_key_witness :
  exists pubKey,
    createKeyPair (Some sample.key, None) = Returned (sample.key, pubKey)
    /\ (length pubKey <= 64)%nat.
Proof.
  destruct (createKeyPair_public_key sample.key) as [(pubKey & Hk & _ & Hlen & _) _].
  - simpl. lia.
  - simpl. lia.
  - by exists pubKey.
Defined.

End WalletFurtherExamples.

(** ** wallet/wallets.go *)

Section WalletsFurther.
Import wallet wallet_keys wallet_facts wallets wallets_io.
Context `{Sha256} `{Ripemd160} `{Base58} `{Gob} `{GobEncoder} `{FileWriter}.

Lemma CreateWallet_Returned generated ws ws' address :
  CreateWallet generated ws = Returned (ws', address) ->
  exists privKey,
    generated = (Some privKey, None)
    /\ address
       = string_of_list_byte
           (GetAddress (mkWallet privKey
                          (big.Bytes (X privKey) ++ big.Bytes (Y privKey))))
    /\ ws' = mkWallets
               (<[address := mkWallet privKey
                               (big.Bytes (X privKey) ++ big.Bytes (Y privKey))]>
                  (Wallets_map ws)).
Proof.
  unfold CreateWallet, InitWallet, createKeyPair.
  destruct generated as [[privKey|] [e|]]; simpl; try discriminate.
  intros [= <- <-]. by exists privKey.
Qed.

(** X9.  After [CreateWallet] returns an address, [GetWallet] finds under
    that address the wallet just made, whose keys are the generated key
    and its public point; every other address answers as it did before
    (an address that was already taken is overwritten). *)
Theorem CreateWallet_GetWallet generated ws ws' address :
  CreateWallet generated ws = Returned (ws', address) ->
  (exists privKey,
     generated = (Some privKey, None)
     /\ GetWallet ws' address
        = Returned (mkWallet privKey
                      (big.Bytes (X privKey) ++ big.Bytes (Y privKey))))
  /\ (forall other, other <> address ->
        GetWallet ws' other = GetWallet ws other).
Proof.
  intros Hc. apply CreateWallet_Returned in Hc as (privKey & -> & Haddr & ->).
  split.
  - exists privKey. split; [done|].
    unfold GetWallet. simpl. by rewrite lookup_insert_eq.
  - intros other Hne. unfold GetWallet. simpl.
    by rewrite lookup_insert_ne.
Qed.

(** X10.  With a base58 codec whose decoder inverts its encoder, every
    address that [CreateWallet] returns passes [ValidateAddress]. *)
Theorem CreateWallet_address_valid generated ws ws' address :
  (forall bs, Base58Decode (Base58Encode bs) = Returned bs) ->
  CreateWallet generated ws = Returned (ws', address) ->
  ValidateAddress address = Returned true.
Proof.
  intros Hcodec Hc.
  apply CreateWallet_Returned in Hc as (privKey & -> & -> & _).
  erewrite ValidateAddress_decoded.
  - by rewrite bool_decide_eq_true_2.
  - rewrite list_byte_of_string_of_list_byte. apply Hcodec.
  - apply length_checksum.
Qed.

Lemma elem_of_GetAddresses ws address :
  address ∈ GetAddresses ws <-> is_Some (Wallets_map ws !! address).
Proof.
  unfold GetAddresses. rewrite list_elem_of_fmap. split.
  - intros ([a w] & -> & Hin). apply elem_of_map_to_list in Hin. by eexists.
  - intros [w Hw]. exists (address, w). split; [done|].
    by apply elem_of_map_to_list.
Qed.

(** X11.  [GetAddresses] lists every address of the collection exactly
    once: it has no duplicates, as many entries as the map has keys, and
    holds an address exactly when [GetWallet] returns for it. *)
Theorem GetAddresses_keys ws :
  NoDup (GetAddresses ws)
  /\ length (GetAddresses ws) = size (Wallets_map ws)
  /\ (forall address,
        address ∈ GetAddresses ws <-> returns (GetWallet ws address)).
Proof.
  split_and!.
  - apply NoDup_fst_map_to_list.
  - unfold GetAddresses. rewrite length_fmap. apply length_map_to_list.
  - intros address. rewrite elem_of_GetAddresses. unfold GetWallet, returns.
    destruct (Wallets_map ws !! address) as [w|]; split.
    + intros _. by eexists.
    + intros _. by eexists.
    + intros [? [=]].
    + intros [? [=]].
Qed.

(** X12.  [CreateWallet] adds its address to the listing and removes
    none: the listing of the new collection holds the new address and
    every address listed before, and is one longer unless the address was
    already taken. *)
Theorem CreateWallet_GetAddresses generated ws ws' address :
  CreateWallet generated ws = Returned (ws', address) ->
  address ∈ GetAddresses ws'
  /\ (forall other, other ∈ GetAddresses ws -> other ∈ GetAddresses ws')
  /\ length (GetAddresses ws')
     = (length (GetAddresses ws)
        + if decide (address ∈ GetAddresses ws) then 0 else 1)%nat.
Proof.
  intros Hc. apply CreateWallet_Returned in Hc as (privKey & _ & _ & ->).
  set (w := mkWallet privKey _). split_and!.
  - apply elem_of_GetAddresses. simpl. rewrite lookup_insert_eq. by eexists.
  - intros other. rewrite !elem_of_GetAddresses. simpl.
    destruct (decide (address = other)) as [->|Hne].
    + rewrite lookup_insert_eq. by eexists.
    + by rewrite lookup_insert_ne.
  - unfold GetAddresses at 1 2. rewrite !length_fmap, !length_map_to_list.
    simpl. case_decide as Hin; rewrite elem_of_GetAddresses in Hin.
    + rewrite map_size_insert_Some by done. lia.
    + rewrite map_size_insert_None; [lia|].
      by apply eq_None_not_Some.
Qed.

Lemma InitWallets_loads_snapshot disk data decoded :
  os_IsNotExist (os_Stat disk) = false ->
  ioutil_ReadFile disk = (data, None) ->
  gob_Decode data = (decoded, None) ->
  InitWallets disk = Returned (decoded, None).
Proof.
  intros Hstat Hread Hdec. unfold InitWallets, LoadFromFile.
  rewrite Hstat, Hread. simpl. rewrite Hdec. simpl. by destruct decoded.
Qed.

(** X13.  [InitWallets] returns exactly when the snapshot file is missing
    or is read and decoded without error, and in the second case it
    returns the decoded collection and no error.  A read error or a
    decode error is never returned: the call panics with it. *)
Theorem InitWallets_returns_iff disk :
  (returns (InitWallets disk)
   <-> os_IsNotExist (os_Stat disk) = true
       \/ exists data decoded,
            ioutil_ReadFile disk = (data, None)
            /\ gob_Decode data = (decoded, None))
  /\ (forall data decoded,
        os_IsNotExist (os_Stat disk) = false ->
        ioutil_ReadFile disk = (data, None) ->
        gob_Decode data = (decoded, None) ->
        InitWallets disk = Returned (decoded, None))
  /\ (forall data e,
        os_IsNotExist (os_Stat disk) = false ->
        ioutil_ReadFile disk = (data, Some e) ->
        InitWallets disk = Panicked (ErrPanic e))
  /\ (forall data decoded e,
        os_IsNotExist (os_Stat disk) = false ->
        ioutil_ReadFile disk = (data, None) ->
        gob_Decode data = (decoded, Some e) ->
        InitWallets disk = Panicked (ErrPanic e)).
Proof.
  split_and!.
  - unfold InitWallets, LoadFromFile, returns.
    destruct (os_IsNotExist (os_Stat disk)) eqn:Hstat.
    { split; [by left | intros _; by eexists]. }
    destruct (ioutil_ReadFile disk) as [data [e|]] eqn:Hread; simpl.
    { split; [intros [? [=]] | intros [[=]|(? & ? & [=] & _)]]. }
    destruct (gob_Decode data) as [decoded [e|]] eqn:Hdec; simpl.
    + split; [intros [? [=]] | intros [[=]|(? & ? & [= <-] & Hd)]].
      rewrite Hdec in Hd. discriminate.
    + split; [intros _ | intros _; by eexists].
      right. by exists data, decoded.
  - intros data decoded. apply InitWallets_loads_snapshot.
  - intros data e Hstat Hread. unfold InitWallets, LoadFromFile.
    by rewrite Hstat, Hread.
  - intros data decoded e Hstat Hread Hdec. unfold InitWallets, LoadFromFile.
    rewrite Hstat, Hread. simpl. by rewrite Hdec.
Qed.


End WalletsFurther.

Section WalletsFurtherExamples.
Import wallet wallet_keys wallets wallets_io.
Local Existing Instance sha256.Sum256.
Local Existing Instance ripemd160.Sum.
Local Existing Instance base58.codec.
Local Existing Instance sample.gob.
Local Existing Instance sample.gob_encoder.
Local Existing Instance sample.file_writer.

(** The address of the wallet whose public point is the base point. *)
Example CreateWallet_base_point :
  CreateWallet (Some sample.key, None) (mkWallets ∅) ≫= (fun r => Returned r.2)
  = Returned "1H9ysxkbjve5xCgsooBQLxWbPjD77AHuCC"%string.
Proof. vm_compute. reflexivity. Qed.

Lemma CreateWallet_GetWallet_witness :
  exists ws' address w,
    CreateWallet (Some sample.key, None) (mkWallets ∅) = Returned (ws', address)
    /\ GetWallet ws' address = Returned w
    /\ PrivateKey w = sample.key
    /\ GetWallet ws' "A1" = Panicked (RuntimePanic NilDereference).
Proof.
  destruct (CreateWallet_GetWallet (Some sample.key, None) (mkWallets ∅) _ _ eq_refl)
    as [(privKey & [= <-] & Hget) Hother].
  do 3 eexists. split_and!; [reflexivity | exact Hget | reflexivity |].
  rewrite Hother; [reflexivity|]. vm_compute. discriminate.
Defined.

Lemma CreateWallet_address_valid_witness :
  exists ws' address,
    CreateWallet (Some sample.key, None) (mkWallets ∅) = Returned (ws', address)
    /\ ValidateAddress address = Returned true.
Proof.
  do 2 eexists. split; [reflexivity|].
  eapply (CreateWallet_address_valid (Some sample.key, None) (mkWallets ∅));
    [exact Decode_Encode | reflexivity].
Defined.

Lemma CreateWallet_GetAddresses_witness :
  exists ws' address,
    CreateWallet (Some sample.key, None) (mkWallets ∅) = Returned (ws', address)
    /\ address ∈ GetAddresses ws'
    /\ length (GetAddresses ws') = 1%nat.
Proof.
  destruct (CreateWallet_GetAddresses (Some sample.key, None) (mkWallets ∅) _ _ eq_refl)
    as (Hin & _ & Hlen).
  do 2 eexists. split_and!; [reflexivity | exact Hin |].
  rewrite Hlen. reflexivity.
Defined.


End WalletsFurtherExamples.

(** ** chaindb/db.go *)

Section ChainFurther.
Import badger chaindb chaindb_facts chaindb_further.
Context `{Engine} {Block : Type} `{BlockCodec Block}.

(** X15.  After [SaveNewLastBlock] returns, the chain exists and its tip
    is the hash of the block just saved: [HasChain] returns true and
    [GetLastHash] returns that hash, both leaving the store as it is. *)
Theorem SaveNewLastBlock_then_tip (newBlock : option Block) (db db' : store) :
  SaveNewLastBlock newBlock db = (db', Returned tt) ->
  exists b,
    newBlock = Some b
    /\ HasChain db' = (db', Returned true)
    /\ GetLastHash db' = (db', Returned (Hash b)).
Proof.
  intros Hs. apply SaveNewLastBlock_Returned in Hs as (b & -> & _ & _ & _ & _ & ->).
  exists b. rewrite HasChain_eval, GetLastHash_eval, lookup_appended_tip.
  by split_and!.
Qed.

(** X16.  After [SaveNewLastBlock] returns for a block whose hash is not
    the tip key itself, [GetBlockWithHash] of that hash decodes the
    record just written, whatever was stored under the hash before; with
    a block codec that round-trips on the block it returns the block. *)
Theorem SaveNewLastBlock_then_block (b : Block) (db db' : store) :
  SaveNewLastBlock (Some b) db = (db', Returned tt) ->
  Hash b <> LastHashKey ->
  GetBlockWithHash (Hash b) db'
  = (db', b' ← DeserializeBlock (SerializeBlock b); Returned (Some b'))
  /\ (DeserializeBlock (SerializeBlock b) = Returned b ->
      GetBlockWithHash (Hash b) db' = (db', Returned (Some b))).
Proof.
  intros Hs Hne.
  apply SaveNewLastBlock_Returned in Hs as (b' & [= <-] & Hh & _ & _ & _ & ->).
  assert (Hget : GetBlockWithHash (Hash b) (appended b db)
                 = (appended b db,
                    b' ← DeserializeBlock (SerializeBlock b); Returned (Some b'))).
  { rewrite GetBlockWithHash_eval, lookup_appended_block by done.
    by destruct (Hash b). }
  split; [exact Hget|]. intros Hrt. by rewrite Hget, Hrt.
Qed.

(** X17.  An append touches two keys only: whether [SaveNewLastBlock]
    returns or panics, every key other than the block's hash and the tip
    key holds what it held, so [GetBlockWithHash] of any other hash
    answers as before. *)
Theorem SaveNewLastBlock_keeps_other_blocks (newBlock : option Block)
    (db : store) (hash : list byte) :
  (forall b, newBlock = Some b -> hash <> Hash b) ->
  hash <> LastHashKey ->
  (SaveNewLastBlock newBlock db).1 !! hash = db !! hash
  /\ (GetBlockWithHash hash (SaveNewLastBlock newBlock db).1).2
     = (GetBlockWithHash hash db).2.
Proof.
  intros Hb Hk.
  assert (Hl : (SaveNewLastBlock newBlock db).1 !! hash = db !! hash).
  { destruct (SaveNewLastBlock_cases newBlock db) as [(b & Hnb & ->)|[p ->]];
      simpl; [|done].
    apply lookup_appended_other; [by apply Hb | done]. }
  split; [exact Hl|].
  rewrite !GetBlockWithHash_eval. simpl. by rewrite Hl.
Qed.

(** X18.  No operation removes a key: a key present in the store is
    present after every sequence of operations. *)
Theorem run_keeps_keys (ops : list (op Block)) (db : store) (key : list byte) :
  is_Some (db !! key) -> is_Some (run ops db !! key).
Proof.
  unfold run. revert db. induction ops as [|o ops IH]; intros db Hkey; simpl.
  - done.
  - by apply IH, state_after_keeps_keys.
Qed.

(** X19.  [HasChain] returns true exactly when the tip key is present.
    It never returns false: without a tip its callback hands the
    key-not-found error to [db.View], and [HandleErr] panics with it. *)
Theorem HasChain_true_iff (db : store) :
  ((HasChain db).2 = Returned true <-> is_Some (db !! LastHashKey))
  /\ (HasChain db).2 <> Returned false
  /\ (db !! LastHashKey = None ->
      (HasChain db).2 = Panicked (ErrPanic ErrKeyNotFound)).
Proof.
  rewrite HasChain_eval. simpl.
  destruct (db !! LastHashKey) as [h|]; (split_and!; [|done|done]).
  - split; [intros _; by eexists | done].
  - split; [discriminate | intros [? [=]]].
Qed.

(** X20.  Whenever [HasChain] returns true, [GetLastHash] returns as
    well, with the hash stored under the tip key. *)
Theorem HasChain_then_GetLastHash (db : store) :
  (HasChain db).2 = Returned true ->
  exists h, db !! LastHashKey = Some h /\ GetLastHash db = (db, Returned h).
Proof.
  rewrite HasChain_eval, GetLastHash_eval. simpl.
  destruct (db !! LastHashKey) as [h|]; [|discriminate].
  intros _. by exists h.
Qed.

(** X21.  [GetBlockWithHash] never returns a nil block.  For a hash that
    is not stored it panics, with the engine's empty-key error for the
    empty hash and its key-not-found error otherwise; for a stored hash
    it returns what decoding the record gives. *)
Theorem GetBlockWithHash_outcomes (db : store) (hash : list byte) :
  (GetBlockWithHash hash db).2 <> Returned None
  /\ (hash = [] -> (GetBlockWithHash hash db).2 = Panicked (ErrPanic ErrEmptyKey))
  /\ (hash <> [] -> db !! hash = None ->
      (GetBlockWithHash hash db).2 = Panicked (ErrPanic ErrKeyNotFound))
  /\ (forall v, hash <> [] -> db !! hash = Some v ->
      (GetBlockWithHash hash db).2
      = (b ← DeserializeBlock v; Returned (Some b))).
Proof.
  rewrite GetBlockWithHash_eval. simpl. split_and!.
  - destruct hash as [|c hash]; [done|].
    destruct (db !! (c :: hash)) as [v|]; [|done].
    by destruct (DeserializeBlock v).
  - by intros ->.
  - intros Hne ->. by destruct hash.
  - intros v Hne ->. by destruct hash.
Qed.

(** X22.  [SaveNewLastBlock] returns exactly when the block pointer is
    not nil, its hash is not empty, the engine accepts both entries and
    the commit succeeds; for a nil block or an empty hash it panics and
    leaves the store as it was. *)
Theorem SaveNewLastBlock_returns_iff (newBlock : option Block) (db : store) :
  (returns (SaveNewLastBlock newBlock db).2
   <-> exists b,
         newBlock = Some b
         /\ Hash b <> []
         /\ entry_check (Hash b) (SerializeBlock b) = None
         /\ entry_check LastHashKey (Hash b) = None
         /\ commit_check db
              (<[LastHashKey := Hash b]> (<[Hash b := SerializeBlock b]> ∅))
            = None)
  /\ SaveNewLastBlock None db = (db, Panicked (RuntimePanic NilDereference))
  /\ (forall b, Hash b = [] ->
        SaveNewLastBlock (Some b) db = (db, Panicked (ErrPanic ErrEmptyKey))).
Proof.
  split_and!.
  - split.
    + intros [[] Hr].
      destruct (SaveNewLastBlock newBlock db) as [db' o] eqn:Hs. simpl in Hr.
      subst o. apply SaveNewLastBlock_Returned in Hs as (b & ? & ? & ? & ? & ? & _).
      by exists b.
    + intros (b & Hb & Hh & He1 & He2 & Hc).
      assert (Hs : SaveNewLastBlock newBlock db = (appended b db, Returned tt)).
      { apply SaveNewLastBlock_Returned. exists b. by split_and!. }
      rewrite Hs. by eexists.
  - reflexivity.
  - intros b Hb. unfold SaveNewLastBlock, Update, Set_. simpl.
    by rewrite Hb.
Qed.

(** X23.  On every store built from the empty one by the operations, the
    block named by the tip can be looked up: the tip is not the empty key
    and it is stored, so [GetBlockWithHash] of the tip does not fail in
    the engine and hands the stored record to the decoder. *)
Theorem tip_block_readable (ops : list (op Block)) (h : list byte) :
  run ops ∅ !! LastHashKey = Some h ->
  exists v,
    run ops ∅ !! h = Some v
    /\ GetBlockWithHash h (run ops ∅)
       = (run ops ∅, b ← DeserializeBlock v; Returned (Some b)).
Proof.
  intros Htip.
  assert (Hne : h <> []).
  { apply (tip_nonempty_run ops ∅); [|done]. intros h'. by rewrite lookup_empty. }
  assert (Hst : is_Some (run ops ∅ !! h)).
  { apply (tip_stored_run ops ∅); [|done]. intros h'. by rewrite lookup_empty. }
  destruct Hst as [v Hv]. exists v. split; [done|].
  rewrite GetBlockWithHash_eval, Hv. by destruct h.
Qed.

End ChainFurther.

Section ChainFurtherExamples.
Import badger chaindb chaindb_facts.
Local Existing Instance sample.engine.
Local Existing Instance sample.block_codec.

(** The store after saving the first sample block into the empty one. *)
Lemma SaveNewLastBlock_sample :
  SaveNewLastBlock (Some sample.block1) ∅
  = ((SaveNewLastBlock (Some sample.block1) ∅).1, Returned tt).
Proof. reflexivity. Qed.

Lemma SaveNewLastBlock_then_tip_witness :
  exists db',
    SaveNewLastBlock (Some sample.block1) ∅ = (db', Returned tt)
    /\ HasChain db' = (db', Returned true)
    /\ GetLastHash db' = (db', Returned [x01; x02]).
Proof.
  eexists. split; [exact SaveNewLastBlock_sample|].
  destruct (SaveNewLastBlock_then_tip _ _ _ SaveNewLastBlock_sample)
    as (b & Hb & Hhas & Htip).
  injection Hb as <-. by split.
Defined.

Lemma SaveNewLastBlock_then_block_witness :
  exists db',
    SaveNewLastBlock (Some sample.block1) ∅ = (db', Returned tt)
    /\ GetBlockWithHash [x01; x02] db' = (db', Returned (Some sample.block1)).
Proof.
  eexists. split; [exact SaveNewLastBlock_sample|].
  apply (SaveNewLastBlock_then_block _ _ _ SaveNewLastBlock_sample);
    [discriminate | reflexivity].
Defined.

Lemma SaveNewLastBlock_keeps_other_blocks_witness :
  (GetBlockWithHash [x01; x02]
     (SaveNewLastBlock (Some sample.block2)
        (SaveNewLastBlock (Some sample.block1) ∅).1).1).2
  = Returned (Some sample.block1).
Proof.
  destruct (SaveNewLastBlock_keeps_other_blocks
              (Some sample.block2)
              (SaveNewLastBlock (Some sample.block1) ∅).1
              [x01; x02]) as [_ Hget].
  - intros b [= <-]. discriminate.
  - discriminate.
  - rewrite Hget. reflexivity.
Defined.

Lemma run_keeps_keys_witness :
  is_Some
    (run [OpSaveNewLastBlock (Some sample.block2); OpHasChain]
       (SaveNewLastBlock (Some sample.block1) ∅).1 !! [x01; x02]).
Proof.
  apply (run_keeps_keys
           [OpSaveNewLastBlock (Some sample.block2); OpHasChain]
           (SaveNewLastBlock (Some sample.block1) ∅).1 [x01; x02]).
  by eexists.
Defined.

Lemma HasChain_then_GetLastHash_witness :
  exists h,
    GetLastHash (SaveNewLastBlock (Some sample.block1) ∅).1
    = ((SaveNewLastBlock (Some sample.block1) ∅).1, Returned h).
Proof.
  destruct (HasChain_then_GetLastHash
              (SaveNewLastBlock (Some sample.block1) ∅).1)
    as (h & _ & Hget).
  - reflexivity.
  - by exists h.
Defined.

Lemma tip_block_readable_witness :
  exists v,
    run [OpSaveNewLastBlock (Some sample.block1)] ∅ !! [x01; x02] = Some v.
Proof.
  destruct (tip_block_readable
              [OpSaveNewLastBlock (Some sample.block1)] [x01; x02])
    as (v & Hv & _).
  - reflexivity.
  - by exists v.
Defined.

End ChainFurtherExamples.
